(** * Sparse feature indexing of the recommender data layer

    A shallow embedding of [distributed/new_features/data/dataset.py]:
    the vocabulary registry, the offset table, the train and test encoders
    and the two [build_trainset] entry points, followed by the properties
    the specification states about them.

    Raw categorical values are integers ([Z]); a column is a [list Z]; the
    index arrays numpy produces are lists of [Z] as well.  The class-level
    attributes of [Dataset] live in an explicit store that is threaded
    through every class method, and an exception leaves the store as the
    raising statement found it. *)

From Stdlib Require Import ZArith Lia String.
From stdpp Require Import gmap strings list sorting.

Local Open Scope Z_scope.

(** ** The numpy operations the data layer calls *)

Module Np.

(** [np.unique(ar)]: sort, then keep every element that differs from its
    left neighbour (the first element is always kept). *)
Fixpoint keep_changes (prev : Z) (ar : list Z) : list Z :=
  match ar with
  | [] => []
  | x :: rest =>
      if Z.eqb prev x then keep_changes x rest else x :: keep_changes x rest
  end.

Definition unique (ar : list Z) : list Z :=
  match merge_sort Z.le ar with
  | [] => []
  | x :: rest => x :: keep_changes x rest
  end.

(** [np.searchsorted(a, v)] with the default [side="left"], for one key:
    the bisection loop [while lo < hi: mid = lo + (hi - lo) // 2; ...].
    The loop runs on [fuel]; [hi - lo] shrinks at every turn, so
    [length a] turns are enough ([bisect_left_fuel]). *)
Fixpoint bisect_left (fuel : nat) (a : list Z) (key : Z) (lo hi : nat) : nat :=
  match fuel with
  | O => lo
  | S fuel' =>
      if (lo <? hi)%nat then
        let mid := (lo + (hi - lo) / 2)%nat in
        if Z.ltb (nth mid a 0) key
        then bisect_left fuel' a key (S mid) hi
        else bisect_left fuel' a key lo mid
      else lo
  end.

Definition searchsorted1 (a : list Z) (key : Z) : Z :=
  Z.of_nat (bisect_left (length a) a key 0 (length a)).

Definition searchsorted (a : list Z) (v : list Z) : list Z :=
  map (searchsorted1 a) v.

(** [np.in1d(ar1, ar2, invert=True)]: one flag per element of [ar1],
    set when the element does not occur in [ar2]. *)
Definition in1d_invert (ar1 ar2 : list Z) : list bool :=
  map (fun x => negb (bool_decide (x ∈ ar2))) ar1.

(** [np.setdiff1d(ar1, ar2, assume_unique=True)]: the elements of [ar1]
    that are not in [ar2], in the order of [ar1], as numpy documents it
    for arrays without repeated elements.  [check_unknown] returns this
    list and [_sparse_indices] drops it. *)
Definition setdiff1d_assume_unique (ar1 ar2 : list Z) : list Z :=
  filter (fun x => x ∉ ar2) ar1.

(** [np.cumsum]: running sums. *)
Fixpoint cumsum_from (acc : Z) (ar : list Z) : list Z :=
  match ar with
  | [] => []
  | x :: rest => (acc + x) :: cumsum_from (acc + x) rest
  end.

Definition cumsum (ar : list Z) : list Z := cumsum_from 0 ar.

(** [a[mask] = x]: boolean-mask assignment of a scalar. *)
Definition mask_assign (a : list Z) (mask : list bool) (x : Z) : list Z :=
  zip_with (fun old (m : bool) => if m then x else old) a mask.

End Np.

(** ** Python values the data layer handles *)

(** Exceptions: the class, with the argument where the code gives one.
    [KeyError] is one class, whoever raises it: [_check_col_names] with its
    message, the subscript of a dict or of a DataFrame with the missing
    key, the subscript of a DataFrame by a list of names with the message
    pandas makes. *)
Inductive exn : Type :=
  | KeyError (arg : string)
  | NameError_subclass
      (* _check_subclass *)
  | UnboundLocalError (var : string)
      (* a local read before any branch assigned it *)
  | ValueError_mode
      (* _sparse_indices: mode must either be train or test *)
  | ValueError_broadcast
      (* numpy: could not broadcast input array into shape *)
  | Raised_in (helper : string) (what : string).
      (* an exception that escapes one of the imported helpers *)

Inductive result (A : Type) : Type :=
  | Ok (a : A)
  | Raise (e : exn).
Arguments Ok {A} a.
Arguments Raise {A} e.

(** The message of the [KeyError] that [_check_col_names] raises; it holds
    three names in double quotes. *)
Definition double_quote : string := String (Ascii.ascii_of_nat 34) EmptyString.

Definition quoted (name : string) : string :=
  String.append double_quote (String.append name double_quote).

Definition required_columns_message : string :=
  String.concat EmptyString
    ["data must contain "; quoted "user"; ", "; quoted "item"; ", "; quoted "label";
     " column names"].

(** The message of the [KeyError] pandas raises for [data[names]] when
    some of the names are not columns: the missing names, as a Python
    list. *)
Definition not_in_index_message (missing : list string) : string :=
  String.concat EmptyString
    ["["; String.concat ", " (map (fun k => String.concat EmptyString ["'"; k; "'"]) missing);
     "] not in index"].

Definition result_bind {A B} (r : result A) (k : A -> result B) : result B :=
  match r with
  | Ok a => k a
  | Raise e => Raise e
  end.

(** A one-dimensional integer array is a [list Z]; a two-dimensional one is
    the list of its rows; an attribute that holds an array or Python's
    [None] is an [option (list Z)]. *)

(** A [pandas.DataFrame]: its length and its named columns.  Every column
    of a frame has [n_rows] entries ([frame_wf]). *)
Record DataFrame : Type := {
  n_rows : nat;
  columns : gmap string (list Z)
}.

Definition frame_wf (data : DataFrame) : Prop :=
  map_Forall (fun _ (vs : list Z) => length vs = n_rows data) (columns data).

(** [name in data.columns] *)
Definition has_column (data : DataFrame) (name : string) : bool :=
  bool_decide (is_Some (columns data !! name)).

(** [data[name]] *)
Definition get_column (data : DataFrame) (name : string) : result (list Z) :=
  match columns data !! name with
  | Some vs => Ok vs
  | None => Raise (KeyError name)
  end.

(** [data[names].to_numpy()]: the named columns side by side, row by row. *)
Definition row_of (cols : list (list Z)) (r : nat) : list Z :=
  map (fun vs => nth r vs 0) cols.

Definition get_columns (data : DataFrame) (names : list string) : result (list (list Z)) :=
  match filter (fun c => columns data !! c = None) names with
  | [] =>
      let cols := omap (fun c => columns data !! c) names in
      Ok (map (row_of cols) (seq 0 (n_rows data)))
  | missing => Raise (KeyError (not_in_index_message missing))
  end.

(** ** Classes and their attributes *)

Inductive cls : Type := Dataset | DatasetPure | DatasetFeat.

Global Instance cls_eq_dec : EqDecision cls.
Proof. solve_decision. Defined.

(** [cls.__name__] *)
Definition class_name (c : cls) : string :=
  match c with
  | Dataset => "Dataset"
  | DatasetPure => "DatasetPure"
  | DatasetFeat => "DatasetFeat"
  end.

(** [issubclass(c, d)] in the hierarchy [DatasetPure, DatasetFeat <: Dataset]. *)
Definition issubclass (c d : cls) : bool :=
  match d with
  | Dataset => true
  | _ => bool_decide (c = d)
  end.

(** [str.lower] and [str.endswith] *)
Definition ascii_lower (ch : Ascii.ascii) : Ascii.ascii :=
  let n := Ascii.nat_of_ascii ch in
  if ((65 <=? n) && (n <=? 90))%nat then Ascii.ascii_of_nat (n + 32) else ch.

Fixpoint lower (s : string) : string :=
  match s with
  | EmptyString => EmptyString
  | String ch rest => String (ascii_lower ch) (lower rest)
  end.

Definition endswith (s suffix : string) : bool :=
  let n := String.length s in
  let k := String.length suffix in
  ((k <=? n)%nat && String.eqb (substring (n - k) k s) suffix)%bool.

(** The class attributes.  [sparse_unique_vals] is one dict object created in
    the body of [Dataset]; subclasses never rebind the name, they store into
    the dict, so all three classes share it.  [user_indices] and
    [item_indices] are rebound by assignment through [cls], which writes
    into the dictionary of the class the method was called on; until then a
    subclass reads the value of [Dataset]. *)
Record store : Type := {
  sparse_unique_vals : gmap string (list Z);
  base_user_indices : option (list Z);
  base_item_indices : option (list Z);
  pure_user_indices : option (option (list Z));
  pure_item_indices : option (option (list Z));
  feat_user_indices : option (option (list Z));
  feat_item_indices : option (option (list Z))
}.

(** The store right after the module is imported. *)
Definition fresh_store : store :=
  {| sparse_unique_vals := ∅;
     base_user_indices := None; base_item_indices := None;
     pure_user_indices := None; pure_item_indices := None;
     feat_user_indices := None; feat_item_indices := None |}.

(** [cls.user_indices] and [cls.item_indices], read *)
Definition get_user_indices (c : cls) (st : store) : option (list Z) :=
  match c with
  | Dataset => base_user_indices st
  | DatasetPure => default (base_user_indices st) (pure_user_indices st)
  | DatasetFeat => default (base_user_indices st) (feat_user_indices st)
  end.

Definition get_item_indices (c : cls) (st : store) : option (list Z) :=
  match c with
  | Dataset => base_item_indices st
  | DatasetPure => default (base_item_indices st) (pure_item_indices st)
  | DatasetFeat => default (base_item_indices st) (feat_item_indices st)
  end.

(** [cls.user_indices = v] and [cls.item_indices = v] *)
Definition set_user_indices (c : cls) (v : option (list Z)) (st : store) : store :=
  {| sparse_unique_vals := sparse_unique_vals st;
     base_user_indices := if decide (c = Dataset) then v else base_user_indices st;
     base_item_indices := base_item_indices st;
     pure_user_indices := if decide (c = DatasetPure) then Some v else pure_user_indices st;
     pure_item_indices := pure_item_indices st;
     feat_user_indices := if decide (c = DatasetFeat) then Some v else feat_user_indices st;
     feat_item_indices := feat_item_indices st |}.

Definition set_item_indices (c : cls) (v : option (list Z)) (st : store) : store :=
  {| sparse_unique_vals := sparse_unique_vals st;
     base_user_indices := base_user_indices st;
     base_item_indices := if decide (c = Dataset) then v else base_item_indices st;
     pure_user_indices := pure_user_indices st;
     pure_item_indices := if decide (c = DatasetPure) then Some v else pure_item_indices st;
     feat_user_indices := feat_user_indices st;
     feat_item_indices := if decide (c = DatasetFeat) then Some v else feat_item_indices st |}.

(** [cls.sparse_unique_vals[col] = v], a store into the shared dict *)
Definition set_unique_vals (col : string) (v : list Z) (st : store) : store :=
  {| sparse_unique_vals := <[col := v]> (sparse_unique_vals st);
     base_user_indices := base_user_indices st;
     base_item_indices := base_item_indices st;
     pure_user_indices := pure_user_indices st;
     pure_item_indices := pure_item_indices st;
     feat_user_indices := feat_user_indices st;
     feat_item_indices := feat_item_indices st |}.

(** [cls.sparse_unique_vals[col]] *)
Definition get_unique_vals (col : string) (st : store) : result (list Z) :=
  match sparse_unique_vals st !! col with
  | Some u => Ok u
  | None => Raise (KeyError col)
  end.

(** ** Class methods: a state and exception monad over the store *)

Definition M (A : Type) : Type := store -> store * result A.

Definition ret {A} (a : A) : M A := fun st => (st, Ok a).
Definition raise {A} (e : exn) : M A := fun st => (st, Raise e).
Definition lift {A} (r : result A) : M A := fun st => (st, r).
Definition bind {A B} (m : M A) (k : A -> M B) : M B :=
  fun st =>
    match m st with
    | (st', Ok a) => k a st'
    | (st', Raise e) => (st', Raise e)
    end.
Definition modify (f : store -> store) : M unit := fun st => (f st, Ok tt).
Definition gets {A} (f : store -> A) : M A := fun st => (st, Ok (f st)).

Declare Scope py_scope.
Delimit Scope py_scope with py.
Notation "'let*' x ':=' m 'in' k" := (bind m (fun x => k))
  (at level 10, x name, m at level 100, k at level 200) : py_scope.
Notation "'exec' m 'in' k" := (bind m (fun _ => k))
  (at level 10, m at level 100, k at level 200) : py_scope.
Notation "'let?' x ':=' r 'in' k" := (result_bind r (fun x => k))
  (at level 10, x name, r at level 100, k at level 200) : py_scope.

Local Open Scope py_scope.

(** ** class Dataset *)

Definition user : string := "user".
Definition item : string := "item".
Definition label : string := "label".

(** [Dataset._check_col_names] *)
Definition _check_col_names (data : DataFrame) : result unit :=
  if negb (forallb id [has_column data user; has_column data item; has_column data label])
  then Raise (KeyError required_columns_message)
  else Ok tt.

(** [Dataset._check_subclass] *)
Definition _check_subclass (c : cls) : result unit :=
  if negb (issubclass c Dataset) then Raise NameError_subclass else Ok tt.

(** [Dataset._set_sparse_unique_vals]: the right-hand side is evaluated
    first, so a missing column raises before the dict is touched for it. *)
Fixpoint _set_sparse_unique_vals (c : cls) (train_data : DataFrame)
    (sparse_col : list string) : M unit :=
  match sparse_col with
  | [] => ret tt
  | col :: rest =>
      let* vals := lift (get_column train_data col) in
      exec modify (set_unique_vals col (Np.unique vals)) in
      _set_sparse_unique_vals c train_data rest
  end.

(** The list comprehensions of [_get_feature_offset]:
    [[len(cls.sparse_unique_vals[col]) + extra for col in sparse_col]] *)
Fixpoint unique_value_counts (extra : Z) (st : store) (sparse_col : list string)
    : result (list Z) :=
  match sparse_col with
  | [] => Ok []
  | col :: rest =>
      let? u := get_unique_vals col st in
      let? tail := unique_value_counts extra st rest in
      Ok ((Z.of_nat (length u) + extra) :: tail)
  end.

(** [Dataset._get_feature_offset]; it only reads the store.  A class whose
    lower-cased name ends with neither suffix leaves [unique_values]
    unassigned. *)
Definition _get_feature_offset (c : cls) (sparse_col : list string) (st : store)
    : result (list Z) :=
  let? unique_values :=
    if endswith (lower (class_name c)) "pure" then
      unique_value_counts 0 st sparse_col
    else if endswith (lower (class_name c)) "feat" then
      (* plus one for unknown value *)
      unique_value_counts 1 st sparse_col
    else Raise (UnboundLocalError "unique_values") in
  Ok (Np.cumsum (0 :: unique_values)).

(** [Dataset.check_unknown] *)
Definition check_unknown (values uniques : list Z) : list Z * list bool :=
  let diff := Np.setdiff1d_assume_unique values uniques in
  let mask := Np.in1d_invert values uniques in
  (diff, mask).

(** [Dataset._sparse_indices]; [cls] is only used to reach [check_unknown],
    so the method is a function of its three arguments. *)
Definition _sparse_indices (values unique : list Z) (mode : string) : result (list Z) :=
  if String.eqb mode "test" then
    let '(diff, not_in_mask) := check_unknown values unique in
    let col_indices := Np.searchsorted unique values in
    Ok (Np.mask_assign col_indices not_in_mask (Z.of_nat (length unique)))
  else if String.eqb mode "train" then
    Ok (Np.searchsorted unique values)
  else Raise ValueError_mode.

(** [np.zeros((n_samples, n_features), dtype=np.int)] *)
Definition zeros (n_samples n_features : nat) : list (list Z) :=
  replicate n_samples (replicate n_features 0).

(** [sparse_indices[:, i] = v]: a vector as long as the matrix is written
    entry by entry, a vector of one element is broadcast to every row, any
    other length is refused. *)
Definition assign_column (i : nat) (v : list Z) (m : list (list Z)) : result (list (list Z)) :=
  if (length v =? length m)%nat then
    Ok (zip_with (fun row x => <[i := x]> row) m v)
  else match v with
       | [x] => Ok (map (fun row => <[i := x]> row) m)
       | _ => Raise ValueError_broadcast
       end.

(** [sparse_indices + feature_offset[:-1]]: the offsets are added to every
    row, position by position. *)
Definition add_offsets (m : list (list Z)) (offsets : list Z) : list (list Z) :=
  map (fun row => zip_with Z.add row offsets) m.

(** The loop of [_get_sparse_indices_matrix]; [i] is the position
    [enumerate] has reached. *)
Fixpoint fill_columns (c : cls) (data : DataFrame) (mode : string)
    (i : nat) (sparse_col : list string) (sparse_indices : list (list Z))
    : M (list (list Z)) :=
  match sparse_col with
  | [] => ret sparse_indices
  | col :: rest =>
      let* col_values := lift (get_column data col) in
      let* unique_values := (fun st => (st, get_unique_vals col st)) in
      exec (if String.eqb col "user" then
              let* idx := lift (_sparse_indices col_values unique_values mode) in
              modify (set_user_indices c (Some idx))
            else if String.eqb col "item" then
              let* idx := lift (_sparse_indices col_values unique_values mode) in
              modify (set_item_indices c (Some idx))
            else ret tt) in
      let* idx := lift (_sparse_indices col_values unique_values mode) in
      let* sparse_indices' := lift (assign_column i idx sparse_indices) in
      fill_columns c data mode (S i) rest sparse_indices'
  end.

(** [Dataset._get_sparse_indices_matrix] *)
Definition _get_sparse_indices_matrix (c : cls) (data : DataFrame)
    (sparse_col : list string) (mode : string) : M (list (list Z)) :=
  let n_samples := n_rows data in
  let n_features := length sparse_col in
  let sparse_indices := zeros n_samples n_features in
  let* sparse_indices := fill_columns c data mode 0 sparse_col sparse_indices in
  let* feature_offset := (fun st => (st, _get_feature_offset c sparse_col st)) in
  ret (add_offsets sparse_indices (removelast feature_offset)).

(** ** The objects [build_trainset] returns

    [TransformedSet] and [DataInfo] are imported classes; a value of either
    is recorded as the constructor call that makes it, with the arguments
    in call order. *)

Inductive TransformedSet : Type :=
  | TransformedSet3 (user_indices item_indices : option (list Z)) (labels : list Z)
  | TransformedSet5 (user_indices item_indices : option (list Z)) (labels : list Z)
      (sparse_indices : list (list Z)) (dense_values : option (list (list Z))).

Inductive DataInfo (mapping : Type) : Type :=
  | DataInfo_ellipsis
      (* DataInfo(...): the only argument is the Ellipsis object *)
  | DataInfo4 (col_name_mapping : mapping) (interaction_data : DataFrame)
      (item_sparse_unique item_dense_unique : option (list (list Z))).
Arguments DataInfo_ellipsis {mapping}.
Arguments DataInfo4 {mapping} _ _ _ _.

(** [data[names]] kept as a frame *)
Definition select_columns (data : DataFrame) (names : list string) : result DataFrame :=
  match filter (fun c => columns data !! c = None) names with
  | [] => Ok {| n_rows := n_rows data;
                columns := filter (fun kv => kv.1 ∈ names) (columns data) |}
  | missing => Raise (KeyError (not_in_index_message missing))
  end.

(** The cast of an integer cell to [float32]: the nearest number that has
    24 significant bits, a tie going to the one whose last bit is 0.  An
    integer of up to 24 bits is kept; a longer one loses its low bits,
    16777217 becomes 16777216.  The result is a whole number again and is
    written as one. *)
Definition float32_of_int (n : Z) : Z :=
  let m := Z.abs n in
  let bits := Z.log2 m + 1 in
  if bits <=? 24 then n
  else
    let shift := bits - 24 in
    let q := Z.shiftr m shift in
    let rest := Z.land m (Z.ones shift) in
    let half := Z.shiftl 1 (shift - 1) in
    let q' := if ((half <? rest) || ((rest =? half) && Z.odd q))%bool then q + 1 else q in
    Z.sgn n * Z.shiftl q' shift.

(** [data["label"].to_numpy(dtype=np.float32)]: the label cells, in row
    order, each cast to [float32]. *)
Definition labels_of (data : DataFrame) : result (list Z) :=
  let? vals := get_column data label in
  Ok (map float32_of_int vals).

(** ** class DatasetPure *)

(** [DatasetPure.build_trainset(train_data, sparse_col)] *)
Definition DatasetPure_build_trainset {mapping : Type} (train_data : DataFrame)
    (sparse_col : list string) : M (TransformedSet * DataInfo mapping) :=
  let c := DatasetPure in
  exec lift (_check_subclass c) in
  exec lift (_check_col_names train_data) in
  exec _set_sparse_unique_vals c train_data sparse_col in
  let* train_sparse_indices := _get_sparse_indices_matrix c train_data [user; item] "train" in
  let* labels := lift (labels_of train_data) in
  let* u := gets (get_user_indices c) in
  let* i := gets (get_item_indices c) in
  ret (TransformedSet3 u i labels, DataInfo_ellipsis).

(** ** class DatasetFeat *)

Section DatasetFeat.

(** The two imported helpers, [col_name2index] and
    [construct_unique_item_feat], and the one read of the mapping that
    [build_trainset] makes.  They are functions of their arguments that
    either return or raise ([inl] carries the message). *)
Variable mapping : Type.
Variable col_name2index :
  list string -> option (list string) -> option (list string) -> option (list string) ->
  string + mapping.
(* list(col_name_mapping["item_sparse_col"].values()) *)
Variable item_sparse_col_values : mapping -> string + list Z.
Variable construct_unique_item_feat :
  list (list Z) -> option (list (list Z)) -> list Z ->
  string + (list (list Z) * option (list (list Z))).

Definition from_helper {A} (helper : string) (r : string + A) : result A :=
  match r with
  | inr a => Ok a
  | inl what => Raise (Raised_in helper what)
  end.

(** [DatasetFeat.build_trainset(train_data, sparse_col, dense_col=None,
    user_col=None, item_col=None, neg=False)] *)
Definition DatasetFeat_build_trainset (train_data : DataFrame)
    (sparse_col : list string) (dense_col user_col item_col : option (list string))
    (neg : bool) : M (TransformedSet * DataInfo mapping) :=
  let c := DatasetFeat in
  exec lift (_check_subclass c) in
  exec lift (_check_col_names train_data) in
  exec _set_sparse_unique_vals c train_data sparse_col in
  let* train_sparse_indices := _get_sparse_indices_matrix c train_data sparse_col "train" in
  let* train_dense_values :=
    match dense_col with
    | Some names => let* d := lift (get_columns train_data names) in ret (Some d)
    | None => ret None
    end in
  let* labels := lift (labels_of train_data) in
  let* col_name_mapping :=
    lift (from_helper "col_name2index" (col_name2index sparse_col dense_col user_col item_col)) in
  let* unique_feat :=
    if neg then
      let* item_sparse_col_indices :=
        lift (from_helper "col_name_mapping" (item_sparse_col_values col_name_mapping)) in
      let* r := lift (from_helper "construct_unique_item_feat"
                  (construct_unique_item_feat train_sparse_indices train_dense_values
                     item_sparse_col_indices)) in
      ret (Some r.1, r.2)
    else ret (None, None) in
  let* u := gets (get_user_indices c) in
  let* i := gets (get_item_indices c) in
  let* interaction := lift (select_columns train_data [user; item; label]) in
  ret (TransformedSet5 u i labels train_sparse_indices train_dense_values,
       DataInfo4 col_name_mapping interaction unique_feat.1 unique_feat.2).

End DatasetFeat.

(** A small table used in the examples: three users, two items. *)
Definition table1 : DataFrame :=
  {| n_rows := 4;
     columns := {[ "user" := [1; 2; 3; 2]; "item" := [10; 20; 10; 10];
                   "label" := [1; 0; 1; 1]; "age" := [30; 20; 30; 40] ]} |}.

(** ** class AutoInt: the attention configuration *)

(** The Python values [AutoInt._att_config] tells apart: [None], booleans,
    integers, strings, lists and tuples; any other object is recorded by
    its truth value.  The items of a list are values again; no proof
    below needs the induction principle. *)
#[local] Unset Elimination Schemes.
Inductive pyval : Type :=
  | PyNone
  | PyBool (b : bool)
  | PyInt (n : Z)
  | PyStr (s : string)
  | PyList (items : list pyval)
  | PyTuple (items : list pyval)
  | PyObject (truth : bool).
#[local] Set Elimination Schemes.

(** [bool(v)] *)
Definition truthy (v : pyval) : bool :=
  match v with
  | PyNone => false
  | PyBool b => b
  | PyInt n => negb (Z.eqb n 0)
  | PyStr s => negb (String.eqb s "")
  | PyList items | PyTuple items =>
      match items with
      | [] => false
      | _ => true
      end
  | PyObject truth => truth
  end.

(** [isinstance(v, int)]; [bool] is a subclass of [int]. *)
Definition is_int (v : pyval) : bool :=
  match v with
  | PyBool _ | PyInt _ => true
  | _ => false
  end.

(** [isinstance(v, (list, tuple))] *)
Definition is_list_or_tuple (v : pyval) : bool :=
  match v with
  | PyList _ | PyTuple _ => true
  | _ => false
  end.

(** [len(v)] of a list or tuple *)
Definition py_len (v : pyval) : Z :=
  match v with
  | PyList items | PyTuple items => Z.of_nat (length items)
  | _ => 0
  end.

(** [AutoInt._att_config]: when no branch is taken, [att_layer_num] is
    read at the [return] without having been assigned. *)
Definition _att_config (att_embed_size : pyval) : result (pyval * Z) :=
  if negb (truthy att_embed_size) then
    Ok (PyTuple [PyInt 8; PyInt 8; PyInt 8], 3)
  else if is_int att_embed_size then
    Ok (PyList [att_embed_size], 1)
  else if is_list_or_tuple att_embed_size then
    Ok (att_embed_size, py_len att_embed_size)
  else Raise (UnboundLocalError "att_layer_num").

(** [v[i]] for a list or tuple and an index that is not negative *)
Definition py_item (v : pyval) (i : nat) : option pyval :=
  match v with
  | PyList items | PyTuple items => items !! i
  | _ => None
  end.

(** ** Notions the specification uses *)

(** The 0-indexed rank of [v] in the sorted set of the distinct values of a
    column: the number of distinct values below [v]. *)
Definition rank_of (v : Z) (vals : list Z) : Z :=
  Z.of_nat (size (filter (fun x => x < v) (list_to_set vals : gset Z))).

(** The size of the vocabulary the registry holds for a column. *)
Definition vocabulary_size (st : store) (col : string) : Z :=
  Z.of_nat (length (default [] (sparse_unique_vals st !! col))).

(** Whether a class reserves one more slot per sparse column for unknown
    values: the [Feat] variant does, the [Pure] variant does not. *)
Definition reserve_unknown_slot (c : cls) : bool :=
  match c with
  | DatasetFeat => true
  | _ => false
  end.

(** ** Vocabulary of the proofs *)

(** A matrix of [n] rows and [m] columns. *)
Definition has_shape (n m : nat) (mx : list (list Z)) : Prop :=
  length mx = n /\ Forall (fun row => length row = m) mx.

(** The column that [assign_column] writes into a matrix of [n] rows, when
    it accepts the vector. *)
Definition written_column (n : nat) (v : list Z) : option (list Z) :=
  if (length v =? n)%nat then Some v
  else match v with
       | [x] => Some (replicate n x)
       | _ => None
       end.

(** The attribute assignment one turn of the loop of
    [_get_sparse_indices_matrix] makes for column [col]. *)
Definition record_indices (c : cls) (col : string) (idx : list Z) (st : store) : store :=
  if String.eqb col "user" then set_user_indices c (Some idx) st
  else if String.eqb col "item" then set_item_indices c (Some idx) st
  else st.

(** The net effect of a run of attribute assignments: the last value given
    to each of the two attributes, if any. *)
Definition put_indices (c : cls) (ou oi : option (list Z)) (st : store) : store :=
  let st1 := match ou with
             | Some v => set_user_indices c (Some v) st
             | None => st
             end in
  match oi with
  | Some v => set_item_indices c (Some v) st1
  | None => st1
  end.

(** One of the three required columns is not in the table. *)
Definition missing_required (data : DataFrame) : Prop :=
  columns data !! user = None \/ columns data !! item = None \/
  columns data !! label = None.

(** A class method that leaves the store as it found it. *)
Definition readonly {A} (m : M A) : Prop :=
  forall st, (m st).1 = st.

(** The store after the columns [ks] of a table were entered in the
    registry. *)
Definition with_vocab (data : DataFrame) (ks : list string) (st : store) : store :=
  foldr (fun k s => set_unique_vals k (Np.unique (default [] (columns data !! k))) s) st ks.

(** The stages of the two [build_trainset] methods, named so that the
    proofs can speak about what follows the checks and what follows the
    encoding. *)
Section build_trainset_parts.

Variable mapping : Type.
Variable col_name2index :
  list string -> option (list string) -> option (list string) -> option (list string) ->
  string + mapping.
Variable item_sparse_col_values : mapping -> string + list Z.
Variable construct_unique_item_feat :
  list (list Z) -> option (list (list Z)) -> list Z ->
  string + (list (list Z) * option (list (list Z))).

(** What [DatasetPure.build_trainset] does once the two checks passed. *)
Definition pure_after_checks (train_data : DataFrame) (sparse_col : list string)
    : M (TransformedSet * DataInfo mapping) :=
  exec _set_sparse_unique_vals DatasetPure train_data sparse_col in
  let* train_sparse_indices :=
    _get_sparse_indices_matrix DatasetPure train_data [user; item] "train" in
  let* labels := lift (labels_of train_data) in
  let* u := gets (get_user_indices DatasetPure) in
  let* i := gets (get_item_indices DatasetPure) in
  ret (TransformedSet3 u i labels, DataInfo_ellipsis).

(** What [DatasetFeat.build_trainset] does with the index matrix. *)
Definition feat_after_matrix (train_data : DataFrame) (sparse_col : list string)
    (dense_col user_col item_col : option (list string)) (neg : bool)
    (train_sparse_indices : list (list Z)) : M (TransformedSet * DataInfo mapping) :=
  let* train_dense_values :=
    match dense_col with
    | Some names => let* d := lift (get_columns train_data names) in ret (Some d)
    | None => ret None
    end in
  let* labels := lift (labels_of train_data) in
  let* col_name_mapping :=
    lift (from_helper "col_name2index" (col_name2index sparse_col dense_col user_col item_col)) in
  let* unique_feat :=
    if neg then
      let* item_sparse_col_indices :=
        lift (from_helper "col_name_mapping" (item_sparse_col_values col_name_mapping)) in
      let* r := lift (from_helper "construct_unique_item_feat"
                  (construct_unique_item_feat train_sparse_indices train_dense_values
                     item_sparse_col_indices)) in
      ret (Some r.1, r.2)
    else ret (None, None) in
  let* u := gets (get_user_indices DatasetFeat) in
  let* i := gets (get_item_indices DatasetFeat) in
  let* interaction := lift (select_columns train_data [user; item; label]) in
  ret (TransformedSet5 u i labels train_sparse_indices train_dense_values,
       DataInfo4 col_name_mapping interaction unique_feat.1 unique_feat.2).

Definition feat_after_checks (train_data : DataFrame) (sparse_col : list string)
    (dense_col user_col item_col : option (list string)) (neg : bool)
    : M (TransformedSet * DataInfo mapping) :=
  exec _set_sparse_unique_vals DatasetFeat train_data sparse_col in
  let* train_sparse_indices :=
    _get_sparse_indices_matrix DatasetFeat train_data sparse_col "train" in
  feat_after_matrix train_data sparse_col dense_col user_col item_col neg
    train_sparse_indices.

End build_trainset_parts.

(** * Properties *)

(** ** The model at work on small inputs *)

Example unique_ex : Np.unique [3; 1; 2; 3; 1] = [1; 2; 3].
Proof. reflexivity. Qed.

Example searchsorted_ex : Np.searchsorted [1; 2; 3] [2; 5; 0] = [1; 3; 0].
Proof. reflexivity. Qed.

Example cumsum_ex : Np.cumsum [0; 3; 2] = [0; 3; 5].
Proof. reflexivity. Qed.

Example encode_train_ex : _sparse_indices [2; 1; 3; 2] [1; 2; 3] "train" = Ok [1; 0; 2; 1].
Proof. reflexivity. Qed.

Example encode_test_ex : _sparse_indices [2; 5; 0] [1; 2; 3] "test" = Ok [1; 3; 3].
Proof. reflexivity. Qed.

Example float32_small_ex : map float32_of_int [0; 1; -5; 16777215; 16777216] =
                             [0; 1; -5; 16777215; 16777216].
Proof. reflexivity. Qed.

Example float32_rounds_ex :
  map float32_of_int [16777217; 16777219; -16777217; 33554434; 9223372036854775807] =
  [16777216; 16777220; -16777216; 33554432; 9223372036854775808].
Proof. reflexivity. Qed.

Example pure_ex :
  @DatasetPure_build_trainset unit table1 [user; item] fresh_store
  = (set_item_indices DatasetPure (Some [0; 1; 0; 0])
       (set_user_indices DatasetPure (Some [0; 1; 2; 1])
          (set_unique_vals item [10; 20] (set_unique_vals user [1; 2; 3] fresh_store))),
     Ok (TransformedSet3 (Some [0; 1; 2; 1]) (Some [0; 1; 0; 0]) [1; 0; 1; 1],
         DataInfo_ellipsis)).
Proof. vm_compute. reflexivity. Qed.

Example matrix_feat_ex :
  (let* _ := _set_sparse_unique_vals DatasetFeat table1 [user; item; "age"] in
   _get_sparse_indices_matrix DatasetFeat table1 [user; item; "age"] "train") fresh_store
  = (set_item_indices DatasetFeat (Some [0; 1; 0; 0])
       (set_user_indices DatasetFeat (Some [0; 1; 2; 1])
          (set_unique_vals "age" [20; 30; 40]
            (set_unique_vals item [10; 20] (set_unique_vals user [1; 2; 3] fresh_store)))),
     Ok [[0; 4; 8]; [1; 5; 7]; [2; 4; 8]; [1; 4; 9]]).
Proof. vm_compute. reflexivity. Qed.

(** ** np.unique *)

Section unique_facts.

Lemma keep_changes_sorted (s : list Z) : forall prev,
  StronglySorted Z.le (prev :: s) ->
  StronglySorted Z.lt (prev :: Np.keep_changes prev s).
Proof.
  induction s as [|x s IH]; intros prev Hs; simpl.
  - repeat constructor.
  - apply StronglySorted_cons in Hs as [Hall Hs].
    pose proof (IH x Hs) as IHx.
    apply StronglySorted_cons in IHx as [Hx Hk].
    pose proof (Forall_inv Hall) as Hle.
    destruct (Z.eqb_spec prev x) as [->|Hne].
    + by apply StronglySorted_cons.
    + apply StronglySorted_cons; split.
      * constructor; [lia|].
        eapply Forall_impl; [exact Hx|]. simpl. intros; lia.
      * by apply StronglySorted_cons.
Qed.

Lemma keep_changes_elem (s : list Z) : forall prev x,
  x ∈ prev :: Np.keep_changes prev s <-> x ∈ prev :: s.
Proof.
  induction s as [|y s IH]; intros prev x; simpl; [done|].
  destruct (Z.eqb_spec prev y) as [->|Hne].
  - rewrite IH, !elem_of_cons. tauto.
  - rewrite !elem_of_cons. rewrite <- !(elem_of_cons _ x y), IH.
    rewrite !elem_of_cons. tauto.
Qed.

Lemma unique_strictly_sorted (ar : list Z) : StronglySorted Z.lt (Np.unique ar).
Proof.
  unfold Np.unique.
  pose proof (StronglySorted_merge_sort Z.le ar) as Hs.
  destruct (merge_sort Z.le ar) as [|x s]; [constructor|].
  by apply keep_changes_sorted.
Qed.

Lemma elem_of_unique (ar : list Z) (x : Z) : x ∈ Np.unique ar <-> x ∈ ar.
Proof.
  unfold Np.unique.
  rewrite <- (merge_sort_Permutation Z.le ar) at 2.
  destruct (merge_sort Z.le ar) as [|y s]; [done|].
  apply keep_changes_elem.
Qed.

Lemma strictly_sorted_NoDup (u : list Z) : StronglySorted Z.lt u -> NoDup u.
Proof.
  induction 1 as [|x u Hs IH Hall]; constructor; [|done].
  intros Hin. rewrite Forall_forall in Hall. specialize (Hall _ Hin). lia.
Qed.

Lemma unique_NoDup (ar : list Z) : NoDup (Np.unique ar).
Proof. apply strictly_sorted_NoDup, unique_strictly_sorted. Qed.

End unique_facts.

(** ** np.searchsorted *)

Section searchsorted_facts.

Lemma filter_keeps_all (P : Z -> Prop) `{!forall x, Decision (P x)} (l : list Z) :
  Forall P l -> filter P l = l.
Proof.
  induction 1 as [|x l Hx Hl IH]; [done|].
  rewrite filter_cons_True by done. by rewrite IH.
Qed.

Lemma filter_keeps_none (P : Z -> Prop) `{!forall x, Decision (P x)} (l : list Z) :
  Forall (fun x => ~ P x) l -> filter P l = [].
Proof.
  induction 1 as [|x l Hx Hl IH]; [done|].
  by rewrite filter_cons_False.
Qed.

Lemma sorted_lookup {R : relation Z} (a : list Z) :
  StronglySorted R a ->
  forall (i j : nat) (x y : Z), (i < j)%nat -> a !! i = Some x -> a !! j = Some y -> R x y.
Proof.
  induction 1 as [|z a Hs IH Hall]; intros i j x y Hij Hi Hj; [done|].
  destruct j as [|j]; [lia|]. simpl in Hj.
  destruct i as [|i]; simpl in Hi.
  - injection Hi as <-. rewrite Forall_forall in Hall.
    apply Hall. by eapply list_elem_of_lookup_2.
  - eapply (IH i j); [lia|done..].
Qed.

Lemma sorted_lookup_le (a : list Z) (i j : nat) (x y : Z) :
  StronglySorted Z.le a -> (i <= j)%nat ->
  a !! i = Some x -> a !! j = Some y -> x <= y.
Proof.
  intros Hs Hij Hi Hj.
  destruct (decide (i = j)) as [->|Hne].
  - rewrite Hi in Hj. injection Hj as <-. lia.
  - eapply (sorted_lookup a Hs i j); [lia|done..].
Qed.

Lemma strictly_sorted_le (a : list Z) : StronglySorted Z.lt a -> StronglySorted Z.le a.
Proof.
  induction 1 as [|x a Hs IH Hall]; constructor; [done|].
  eapply Forall_impl; [exact Hall|]. simpl. intros; lia.
Qed.

(** The loop does not depend on the fuel once there is enough of it. *)
Lemma bisect_left_fuel (a : list Z) (key : Z) : forall (f1 f2 lo hi : nat),
  (hi - lo <= f1)%nat -> (hi - lo <= f2)%nat ->
  Np.bisect_left f1 a key lo hi = Np.bisect_left f2 a key lo hi.
Proof.
  induction f1 as [|f1 IH]; intros f2 lo hi H1 H2.
  - destruct f2 as [|f2]; cbn [Np.bisect_left]; [done|].
    destruct (Nat.ltb_spec lo hi); [lia|done].
  - destruct f2 as [|f2]; cbn [Np.bisect_left].
    + destruct (Nat.ltb_spec lo hi); [lia|done].
    + destruct (Nat.ltb_spec lo hi) as [Hlt|]; [|done].
      pose proof (Nat.div_mod_eq (hi - lo) 2) as Hd.
      pose proof (Nat.mod_upper_bound (hi - lo) 2 ltac:(lia)) as Hm.
      destruct (Z.ltb _ key); apply IH; lia.
Qed.

Lemma bisect_left_spec (a : list Z) (key : Z) :
  StronglySorted Z.le a ->
  forall (fuel lo hi : nat),
    (lo <= hi <= length a)%nat -> (hi - lo <= fuel)%nat ->
    (forall (i : nat) x, (i < lo)%nat -> a !! i = Some x -> x < key) ->
    (forall (i : nat) x, (hi <= i)%nat -> a !! i = Some x -> key <= x) ->
    let r := Np.bisect_left fuel a key lo hi in
    (lo <= r <= hi)%nat /\
    (forall (i : nat) x, (i < r)%nat -> a !! i = Some x -> x < key) /\
    (forall (i : nat) x, (r <= i)%nat -> a !! i = Some x -> key <= x).
Proof.
  intros Hs. induction fuel as [|fuel IH]; intros lo hi Hb Hf Hlo Hhi; cbn [Np.bisect_left].
  - assert (lo = hi) as -> by lia. eauto with lia.
  - destruct (Nat.ltb_spec lo hi) as [Hlt|Hge].
    2:{ assert (lo = hi) as -> by lia. eauto with lia. }
    pose proof (Nat.div_mod_eq (hi - lo) 2) as Hd.
    pose proof (Nat.mod_upper_bound (hi - lo) 2 ltac:(lia)) as Hm.
    set (mid := (lo + (hi - lo) / 2)%nat) in *.
    assert (lo <= mid < hi)%nat as Hmid by (unfold mid; lia).
    destruct (lookup_lt_is_Some_2 a mid) as [x Hx]; [lia|].
    rewrite (nth_lookup_Some _ _ 0 _ Hx).
    destruct (Z.ltb_spec x key) as [Hxk|Hxk].
    + destruct (IH (S mid) hi) as (Hr & Hl & Hu); [lia|lia| |done|].
      * intros i y Hi Hy.
        pose proof (sorted_lookup_le a i mid y x Hs ltac:(lia) Hy Hx). lia.
      * split; [lia|done].
    + destruct (IH lo mid) as (Hr & Hl & Hu); [lia|lia|done| |].
      * intros i y Hi Hy.
        pose proof (sorted_lookup_le a mid i x y Hs ltac:(lia) Hx Hy). lia.
      * split; [lia|done].
Qed.

(** On an ascending array, [searchsorted] returns the position that has
    the smaller entries before it and no smaller entry after it. *)
Lemma searchsorted1_spec (a : list Z) (key : Z) :
  StronglySorted Z.le a ->
  exists r : nat,
    Np.searchsorted1 a key = Z.of_nat r /\ (r <= length a)%nat /\
    (forall (i : nat) x, (i < r)%nat -> a !! i = Some x -> x < key) /\
    (forall (i : nat) x, (r <= i)%nat -> a !! i = Some x -> key <= x).
Proof.
  intros Hs. exists (Np.bisect_left (length a) a key 0 (length a)).
  destruct (bisect_left_spec a key Hs (length a) 0 (length a)) as (Hr & Hl & Hu).
  - lia.
  - lia.
  - intros; lia.
  - intros i x Hi Hx. apply lookup_lt_Some in Hx. lia.
  - repeat split; [lia|done..].
Qed.

(** It is the number of entries below the key. *)
Lemma searchsorted1_count (a : list Z) (key : Z) :
  StronglySorted Z.le a ->
  Np.searchsorted1 a key = Z.of_nat (length (filter (fun x => x < key) a)).
Proof.
  intros Hs. destruct (searchsorted1_spec a key Hs) as (r & -> & Hr & Hl & Hu).
  f_equal. rewrite <- (take_drop r a) at 1. rewrite filter_app.
  assert (filter (fun x => x < key) (take r a) = take r a) as ->.
  { apply filter_keeps_all. apply Forall_forall. intros x Hx.
    apply elem_of_take in Hx as (i & Hi & Hlt). eauto. }
  assert (filter (fun x => x < key) (drop r a) = []) as ->.
  { apply filter_keeps_none. apply Forall_forall. intros x Hx.
    apply list_elem_of_lookup in Hx as (i & Hi). rewrite lookup_drop in Hi.
    specialize (Hu (r + i)%nat x ltac:(lia) Hi). lia. }
  rewrite app_nil_r, length_take. lia.
Qed.

(** A key that occurs in the array is found at the returned position. *)
Lemma searchsorted1_member (a : list Z) (key : Z) :
  StronglySorted Z.le a -> key ∈ a ->
  exists r : nat, Np.searchsorted1 a key = Z.of_nat r /\ a !! r = Some key.
Proof.
  intros Hs Hin. destruct (searchsorted1_spec a key Hs) as (r & Hr & Hlen & Hl & Hu).
  exists r. split; [done|].
  apply list_elem_of_lookup in Hin as (j & Hj).
  assert (r <= j)%nat as Hrj.
  { destruct (decide (r <= j)%nat); [done|].
    specialize (Hl j key ltac:(lia) Hj). lia. }
  destruct (lookup_lt_is_Some_2 a r) as [y Hy].
  { apply lookup_lt_Some in Hj. lia. }
  pose proof (Hu r y ltac:(lia) Hy).
  pose proof (sorted_lookup_le a r j y key Hs Hrj Hy Hj).
  rewrite Hy. f_equal. lia.
Qed.

End searchsorted_facts.

(** ** The vocabulary registry *)

Ltac unfold_M := unfold bind, lift, modify, ret, raise, gets in *.

Section registry_facts.

Lemma rank_of_unique (v : Z) (vals : list Z) :
  Z.of_nat (length (filter (fun x => x < v) (Np.unique vals))) = rank_of v vals.
Proof.
  unfold rank_of. f_equal.
  assert (filter (fun x => x < v) (list_to_set vals : gset Z)
          = list_to_set (filter (fun x => x < v) (Np.unique vals))) as ->.
  { apply set_eq. intros x.
    rewrite elem_of_filter, !elem_of_list_to_set, list_elem_of_filter, elem_of_unique.
    done. }
  symmetry. apply size_list_to_set, NoDup_filter, unique_NoDup.
Qed.

(** What a completed pass of [_set_sparse_unique_vals] leaves in the
    store: every listed column is a column of the table and is mapped to
    its sorted distinct values, every other key keeps its entry, and the
    index attributes are untouched. *)
Lemma set_sparse_unique_vals_ok (c : cls) (data : DataFrame) (sparse_col : list string) :
  forall st st',
    _set_sparse_unique_vals c data sparse_col st = (st', Ok tt) ->
    (forall col, col ∈ sparse_col -> is_Some (columns data !! col)) /\
    (forall col, sparse_unique_vals st' !! col =
                 if decide (col ∈ sparse_col)
                 then Np.unique <$> (columns data !! col)
                 else sparse_unique_vals st !! col) /\
    (forall k, get_user_indices k st' = get_user_indices k st) /\
    (forall k, get_item_indices k st' = get_item_indices k st).
Proof.
  induction sparse_col as [|col rest IH]; intros st st' Hrun; simpl in Hrun.
  - unfold_M. injection Hrun as <-. split; [|split]; [|done..].
    intros col Hin. by apply elem_of_nil in Hin.
  - unfold_M. unfold get_column in Hrun.
    destruct (columns data !! col) as [vals|] eqn:Hcol; [|done].
    apply IH in Hrun as (Hcols & Hreg & Hu & Hi).
    split; [|split; [|split]].
    + intros k [->|Hin]%elem_of_cons; eauto.
    + intros k. rewrite Hreg. simpl.
      destruct (decide (k ∈ rest)) as [Hin|Hnin].
      * rewrite decide_True by (by right). done.
      * destruct (decide (k = col)) as [->|Hne].
        -- rewrite decide_True by (by left). by rewrite lookup_insert_eq, Hcol.
        -- rewrite decide_False by (rewrite elem_of_cons; tauto).
           by rewrite lookup_insert_ne.
    + intros k. rewrite Hu. by destruct k.
    + intros k. rewrite Hi. by destruct k.
Qed.

(** The pass completes on every table that has the listed columns. *)
Lemma set_sparse_unique_vals_runs (c : cls) (data : DataFrame) (sparse_col : list string) :
  (forall col, col ∈ sparse_col -> is_Some (columns data !! col)) ->
  forall st, exists st', _set_sparse_unique_vals c data sparse_col st = (st', Ok tt).
Proof.
  induction sparse_col as [|col rest IH]; intros Hcols st; simpl.
  - by exists st.
  - unfold_M. unfold get_column.
    destruct (Hcols col) as [vals ->]; [by left|].
    apply IH. intros k Hk. apply Hcols. by right.
Qed.

End registry_facts.

(** ** Train-mode encoding (C1) *)

Lemma sparse_indices_train (values unique : list Z) :
  _sparse_indices values unique "train" = Ok (Np.searchsorted unique values).
Proof. reflexivity. Qed.

(** C1.  Once [_set_sparse_unique_vals] has built the vocabulary of a sparse
    column from a table, encoding that column of the same table in train
    mode succeeds, and the index of every entry is the 0-indexed rank of its
    value in the sorted set of the column's distinct values: it is
    [rank_of], the number of distinct values below it, and the vocabulary,
    which is strictly ascending and holds exactly the values of the column,
    has the value at that position.  The encoder is a function of its
    arguments, so a repeated call returns the same array. *)
Theorem train_encoding_is_rank (c : cls) (data : DataFrame) (sparse_col : list string)
    (st st' : store) (col : string) (vals : list Z) (i : nat) (v : Z) :
  _set_sparse_unique_vals c data sparse_col st = (st', Ok tt) ->
  col ∈ sparse_col ->
  get_column data col = Ok vals ->
  vals !! i = Some v ->
  exists (u idx : list Z) (r : nat),
    get_unique_vals col st' = Ok u /\
    StronglySorted Z.lt u /\ (forall x, x ∈ u <-> x ∈ vals) /\
    _sparse_indices vals u "train" = Ok idx /\
    length idx = length vals /\
    idx !! i = Some (Z.of_nat r) /\
    Z.of_nat r = rank_of v vals /\
    u !! r = Some v /\
    (forall idx', _sparse_indices vals u "train" = Ok idx' -> idx' = idx).
Proof.
  intros Hrun Hin Hcol Hv.
  apply set_sparse_unique_vals_ok in Hrun as (_ & Hreg & _).
  specialize (Hreg col). rewrite decide_True in Hreg by done.
  unfold get_column in Hcol.
  destruct (columns data !! col) as [vals'|] eqn:Hc; [|done].
  injection Hcol as ->. simpl in Hreg.
  assert (v ∈ Np.unique vals) as Hmem.
  { apply elem_of_unique. by eapply list_elem_of_lookup_2. }
  pose proof (unique_strictly_sorted vals) as Hsorted.
  destruct (searchsorted1_member (Np.unique vals) v
              (strictly_sorted_le _ Hsorted) Hmem) as (r & Hr & Hur).
  exists (Np.unique vals), (Np.searchsorted (Np.unique vals) vals), r.
  repeat split.
  - unfold get_unique_vals. by rewrite Hreg.
  - done.
  - by apply elem_of_unique.
  - by apply elem_of_unique.
  - unfold Np.searchsorted. by rewrite length_map.
  - unfold Np.searchsorted. by rewrite list_lookup_fmap, Hv, <- Hr.
  - rewrite <- Hr, <- rank_of_unique.
    apply searchsorted1_count, strictly_sorted_le, Hsorted.
  - done.
  - intros idx'. rewrite sparse_indices_train. by intros [= <-].
Qed.

Lemma train_encoding_is_rank_witness :
  exists (u idx : list Z) (r : nat),
    get_unique_vals user
      (set_unique_vals item [10; 20] (set_unique_vals user [1; 2; 3] fresh_store)) = Ok u /\
    StronglySorted Z.lt u /\ (forall x, x ∈ u <-> x ∈ [1; 2; 3; 2]) /\
    _sparse_indices [1; 2; 3; 2] u "train" = Ok idx /\
    length idx = length [1; 2; 3; 2] /\
    idx !! 2%nat = Some (Z.of_nat r) /\
    Z.of_nat r = rank_of 3 [1; 2; 3; 2] /\
    u !! r = Some 3 /\
    (forall idx', _sparse_indices [1; 2; 3; 2] u "train" = Ok idx' -> idx' = idx).
Proof.
  apply (train_encoding_is_rank DatasetFeat table1 [user; item] fresh_store _ user
           [1; 2; 3; 2] 2 3).
  - vm_compute. reflexivity.
  - compute_done.
  - vm_compute. reflexivity.
  - reflexivity.
Defined.

(** ** Test-mode encoding (C2) *)

Lemma unique_value_counts_one (extra : Z) (st : store) (col : string) (u : list Z) :
  get_unique_vals col st = Ok u ->
  unique_value_counts extra st [col] = Ok [Z.of_nat (length u) + extra].
Proof. intros Hu. simpl. by rewrite Hu. Qed.

Lemma lookup_mask_assign (a : list Z) (mask : list bool) (x : Z) (i : nat) (old : Z) (m : bool) :
  a !! i = Some old -> mask !! i = Some m ->
  Np.mask_assign a mask x !! i = Some (if m then x else old).
Proof.
  intros Ha Hm. unfold Np.mask_assign. by rewrite lookup_zip_with, Ha, Hm.
Qed.

Lemma lookup_in1d_invert (ar1 ar2 : list Z) (i : nat) (v : Z) :
  ar1 !! i = Some v ->
  Np.in1d_invert ar1 ar2 !! i = Some (negb (bool_decide (v ∈ ar2))).
Proof. intros Hv. unfold Np.in1d_invert. by rewrite list_lookup_fmap, Hv. Qed.

(** C2.  In test mode a value that is absent from the vocabulary is encoded
    as the vocabulary size, the reserved unknown slot, and [check_unknown]
    sets its bit in the mask.  The call never raises; when no value of the
    column is in the vocabulary, every row gets the reserved index.  Under
    the offsets of [DatasetFeat] the reserved index lies inside the range
    of its column. *)
Theorem test_encoding_unknown (values unique : list Z) (i : nat) (v : Z) :
  values !! i = Some v ->
  v ∉ unique ->
  exists idx : list Z,
    _sparse_indices values unique "test" = Ok idx /\
    length idx = length values /\
    idx !! i = Some (Z.of_nat (length unique)) /\
    (check_unknown values unique).2 !! i = Some true /\
    (Forall (fun x => x ∉ unique) values ->
     idx = replicate (length values) (Z.of_nat (length unique))) /\
    (forall st col, get_unique_vals col st = Ok unique ->
       exists w, _get_feature_offset DatasetFeat [col] st = Ok [0; w] /\
                 0 <= Z.of_nat (length unique) < w).
Proof.
  intros Hv Hnin.
  exists (Np.mask_assign (Np.searchsorted unique values)
            (Np.in1d_invert values unique) (Z.of_nat (length unique))).
  assert (forall (j : nat) x, values !! j = Some x -> x ∉ unique ->
            Np.mask_assign (Np.searchsorted unique values)
              (Np.in1d_invert values unique) (Z.of_nat (length unique)) !! j
            = Some (Z.of_nat (length unique))) as Hslot.
  { intros j x Hx Hxn.
    rewrite (lookup_mask_assign _ _ _ j (Np.searchsorted1 unique x)
               (negb (bool_decide (x ∈ unique)))).
    - by rewrite bool_decide_eq_false_2.
    - unfold Np.searchsorted. by rewrite list_lookup_fmap, Hx.
    - by apply lookup_in1d_invert. }
  assert (length (Np.mask_assign (Np.searchsorted unique values)
            (Np.in1d_invert values unique) (Z.of_nat (length unique)))
          = length values) as Hlen.
  { unfold Np.mask_assign, Np.searchsorted, Np.in1d_invert.
    rewrite length_zip_with, !length_map. lia. }
  repeat split.
  - done.
  - by apply Hslot with v.
  - simpl. rewrite (lookup_in1d_invert _ _ _ _ Hv).
    by rewrite bool_decide_eq_false_2.
  - intros Hall. apply list_eq. intros j.
    destruct (values !! j) as [x|] eqn:Hx.
    + rewrite (Hslot j x Hx).
      * symmetry. apply lookup_replicate_2. by eapply lookup_lt_Some.
      * rewrite Forall_forall in Hall. apply Hall. by eapply list_elem_of_lookup_2.
    + apply lookup_ge_None in Hx.
      rewrite (proj2 (lookup_ge_None _ _)) by lia.
      symmetry. apply lookup_ge_None. rewrite length_replicate. lia.
  - intros st col Hu. exists (Z.of_nat (length unique) + 1).
    split; [|lia].
    unfold _get_feature_offset. simpl endswith. cbn [result_bind].
    rewrite (unique_value_counts_one 1 st col unique Hu).
    reflexivity.
Qed.

Lemma test_encoding_unknown_witness :
  exists idx : list Z,
    _sparse_indices [5; 2; 7] [1; 2; 3] "test" = Ok idx /\
    length idx = length [5; 2; 7] /\
    idx !! 0%nat = Some (Z.of_nat (length [1; 2; 3])) /\
    (check_unknown [5; 2; 7] [1; 2; 3]).2 !! 0%nat = Some true /\
    (Forall (fun x => x ∉ [1; 2; 3]) [5; 2; 7] ->
     idx = replicate (length [5; 2; 7]) (Z.of_nat (length [1; 2; 3]))) /\
    (forall st col, get_unique_vals col st = Ok [1; 2; 3] ->
       exists w, _get_feature_offset DatasetFeat [col] st = Ok [0; w] /\
                 0 <= Z.of_nat (length [1; 2; 3]) < w).
Proof.
  apply (test_encoding_unknown [5; 2; 7] [1; 2; 3] 0 5).
  - reflexivity.
  - compute_done.
Defined.

(** ** Train mode on a value outside the vocabulary (C5) *)

Lemma bisect_left_bounds (a : list Z) (key : Z) : forall (fuel lo hi : nat),
  (lo <= hi)%nat ->
  (lo <= Np.bisect_left fuel a key lo hi <= hi)%nat.
Proof.
  induction fuel as [|fuel IH]; intros lo hi Hb; cbn [Np.bisect_left]; [lia|].
  destruct (Nat.ltb_spec lo hi) as [Hlt|Hge]; [|lia].
  pose proof (Nat.div_mod_eq (hi - lo) 2) as Hd.
  pose proof (Nat.mod_upper_bound (hi - lo) 2 ltac:(lia)) as Hm.
  destruct (Z.ltb _ key).
  - specialize (IH (S (lo + (hi - lo) / 2)%nat) hi). lia.
  - specialize (IH lo (lo + (hi - lo) / 2)%nat). lia.
Qed.

(** C5 does not hold of the code: in train mode the value 5, which the
    vocabulary [1; 2; 3] does not hold, is encoded as index 3 and nothing
    is raised. *)
Lemma train_unknown_value_not_raised :
  (5 ∈ [5]) /\ (5 ∉ [1; 2; 3]) /\
  _sparse_indices [5] [1; 2; 3] "train" = Ok [3] /\
  ~ (exists e, _sparse_indices [5] [1; 2; 3] "train" = Raise e).
Proof.
  split; [compute_done|]. split; [compute_done|]. split; [reflexivity|].
  intros [e He]. discriminate He.
Qed.

(** C5, as the code has it.  Train mode makes no membership test: for a raw
    value that the vocabulary does not hold the encoder still returns an
    index array, and the entry for that value is its insertion position
    [searchsorted] computes, between 0 and the vocabulary size; for an
    ascending vocabulary that is the number of entries below the value. *)
Theorem train_encoding_unknown_value (values unique : list Z) (i : nat) (v : Z) :
  values !! i = Some v ->
  v ∉ unique ->
  exists idx : list Z,
    _sparse_indices values unique "train" = Ok idx /\
    length idx = length values /\
    idx !! i = Some (Np.searchsorted1 unique v) /\
    0 <= Np.searchsorted1 unique v <= Z.of_nat (length unique) /\
    (StronglySorted Z.le unique ->
     Np.searchsorted1 unique v = Z.of_nat (length (filter (fun x => x < v) unique))).
Proof.
  intros Hv _. exists (Np.searchsorted unique values).
  repeat split.
  - unfold Np.searchsorted. by rewrite length_map.
  - unfold Np.searchsorted. by rewrite list_lookup_fmap, Hv.
  - unfold Np.searchsorted1. lia.
  - unfold Np.searchsorted1.
    pose proof (bisect_left_bounds unique v (length unique) 0 (length unique)). lia.
  - apply searchsorted1_count.
Qed.

Lemma train_encoding_unknown_value_witness :
  exists idx : list Z,
    _sparse_indices [5] [1; 2; 3] "train" = Ok idx /\
    length idx = length [5] /\
    idx !! 0%nat = Some (Np.searchsorted1 [1; 2; 3] 5) /\
    0 <= Np.searchsorted1 [1; 2; 3] 5 <= Z.of_nat (length [1; 2; 3]) /\
    (StronglySorted Z.le [1; 2; 3] ->
     Np.searchsorted1 [1; 2; 3] 5
     = Z.of_nat (length (filter (fun x => x < 5) [1; 2; 3]))).
Proof.
  apply (train_encoding_unknown_value [5] [1; 2; 3] 0 5).
  - reflexivity.
  - compute_done.
Defined.

(** ** The mode argument (C6) *)

Lemma sparse_indices_valid_mode (values unique : list Z) (mode : string) :
  mode = "train" \/ mode = "test" ->
  exists idx, _sparse_indices values unique mode = Ok idx.
Proof. intros [-> | ->]; by eexists. Qed.

(** C6.  [_sparse_indices] raises the invalid-mode error exactly when the
    mode is neither [train] nor [test]; for the two valid modes it returns
    an index array. *)
Theorem invalid_mode_raises (values unique : list Z) (mode : string) :
  (_sparse_indices values unique mode = Raise ValueError_mode
   <-> mode <> "train" /\ mode <> "test") /\
  ((exists idx, _sparse_indices values unique mode = Ok idx)
   <-> mode = "train" \/ mode = "test") /\
  (forall e, _sparse_indices values unique mode = Raise e -> e = ValueError_mode).
Proof.
  unfold _sparse_indices.
  destruct (String.eqb_spec mode "test") as [->|Htest].
  - simpl. repeat split; try done.
    + intros [_ H]. done.
    + eauto.
    + eauto.
  - destruct (String.eqb_spec mode "train") as [->|Htrain].
    + repeat split; try done.
      * intros [H _]. done.
      * eauto.
      * eauto.
    + repeat split; try done.
      * intros [idx H]. done.
      * intros [H|H]; done.
      * by intros e [= <-].
Qed.

(** ** The offset table (C3) *)

Section offset_facts.

Lemma length_cumsum_from (ar : list Z) : forall acc,
  length (Np.cumsum_from acc ar) = length ar.
Proof. induction ar as [|x ar IH]; intros acc; simpl; [done|]. by rewrite IH. Qed.

(** Two neighbours of a running sum differ by the summand between them. *)
Lemma cumsum_from_step (ar : list Z) : forall (acc : Z) (i : nat) (x : Z),
  ar !! i = Some x ->
  exists a b,
    (acc :: Np.cumsum_from acc ar) !! i = Some a /\
    (acc :: Np.cumsum_from acc ar) !! S i = Some b /\
    b - a = x.
Proof.
  induction ar as [|y ar IH]; intros acc i x Hi; [done|].
  destruct i as [|i]; simpl in Hi.
  - injection Hi as ->. exists acc, (acc + x). simpl. repeat split. lia.
  - destruct (IH (acc + y) i x Hi) as (a & b & Ha & Hb & Hab).
    exists a, b. by repeat split.
Qed.

Lemma cumsum_leading_zero (ar : list Z) :
  Np.cumsum (0 :: ar) = 0 :: Np.cumsum_from 0 ar.
Proof. reflexivity. Qed.

(** Running sums of non-negative summands ascend. *)
Lemma cumsum_from_ascending (ar : list Z) : forall (acc : Z) (i j : nat) (a b : Z),
  Forall (fun x => 0 <= x) ar -> (i <= j)%nat ->
  (acc :: Np.cumsum_from acc ar) !! i = Some a ->
  (acc :: Np.cumsum_from acc ar) !! j = Some b ->
  a <= b.
Proof.
  induction ar as [|y ar IH]; intros acc i j a b Hall Hij Ha Hb.
  - destruct i as [|i]; [|done]. destruct j as [|j]; [|done].
    simpl in *. simplify_eq. lia.
  - apply Forall_cons in Hall as [Hy Hall].
    destruct j as [|j].
    + assert (i = 0)%nat as -> by lia. simpl in *. simplify_eq. lia.
    + destruct i as [|i].
      * simpl in Ha. injection Ha as <-.
        assert (acc + y <= b); [|lia].
        eapply (IH (acc + y) 0%nat j); [done|lia|done|done].
      * eapply (IH (acc + y) i j); [done|lia|done|done].
Qed.

Lemma unique_value_counts_ok (extra : Z) (st : store) (sparse_col : list string) :
  (forall col, col ∈ sparse_col -> is_Some (sparse_unique_vals st !! col)) ->
  unique_value_counts extra st sparse_col
  = Ok (map (fun col => vocabulary_size st col + extra) sparse_col).
Proof.
  induction sparse_col as [|col rest IH]; intros Hreg; simpl; [done|].
  destruct (Hreg col) as [u Hu]; [by left|].
  unfold get_unique_vals. rewrite Hu. simpl.
  rewrite IH by (intros k Hk; apply Hreg; by right). simpl.
  unfold vocabulary_size. by rewrite Hu.
Qed.

Lemma unique_value_counts_inv (extra : Z) (st : store) (sparse_col : list string) :
  forall counts, unique_value_counts extra st sparse_col = Ok counts ->
  forall col, col ∈ sparse_col -> is_Some (sparse_unique_vals st !! col).
Proof.
  induction sparse_col as [|col rest IH]; intros counts Hc k Hk.
  - by apply elem_of_nil in Hk.
  - simpl in Hc. unfold get_unique_vals in Hc.
    destruct (sparse_unique_vals st !! col) as [u|] eqn:Hu; [|done].
    simpl in Hc.
    destruct (unique_value_counts extra st rest) as [tail|] eqn:Ht; [|done].
    apply elem_of_cons in Hk as [->|Hk]; [by rewrite Hu|].
    by eapply IH.
Qed.

(** [_get_feature_offset] spelled out for the two subclasses. *)
Lemma get_feature_offset_unfold (c : cls) (sparse_col : list string) (st : store) :
  c <> Dataset ->
  _get_feature_offset c sparse_col st
  = result_bind
      (unique_value_counts (if reserve_unknown_slot c then 1 else 0) st sparse_col)
      (fun unique_values => Ok (Np.cumsum (0 :: unique_values))).
Proof. intros Hc. by destruct c. Qed.

Lemma get_feature_offset_base (sparse_col : list string) (st : store) :
  _get_feature_offset Dataset sparse_col st = Raise (UnboundLocalError "unique_values").
Proof. reflexivity. Qed.

End offset_facts.

(** The table [_get_feature_offset] returns, for a subclass and a registry
    that holds every listed column. *)
Lemma get_feature_offset_table (c : cls) (sparse_col : list string) (st : store) :
  c <> Dataset ->
  (forall col, col ∈ sparse_col -> is_Some (sparse_unique_vals st !! col)) ->
  exists offsets : list Z,
    _get_feature_offset c sparse_col st = Ok offsets /\
    length offsets = S (length sparse_col) /\
    offsets !! 0%nat = Some 0 /\
    forall (i : nat) (col : string),
      sparse_col !! i = Some col ->
      exists a b,
        offsets !! i = Some a /\ offsets !! S i = Some b /\
        b - a = vocabulary_size st col + (if reserve_unknown_slot c then 1 else 0).
Proof.
  intros Hc Hreg.
  rewrite get_feature_offset_unfold by done.
  rewrite unique_value_counts_ok by done. cbn [result_bind].
  eexists. split; [reflexivity|].
  rewrite cumsum_leading_zero. repeat split.
  - simpl. by rewrite length_cumsum_from, length_map.
  - intros i col Hi.
    apply cumsum_from_step. by rewrite list_lookup_fmap, Hi.
Qed.

(** C3.  For a subclass ([DatasetPure] or [DatasetFeat]) and a registry that
    holds a vocabulary for every listed column, [_get_feature_offset]
    returns a table with one more entry than there are columns, its first
    entry is 0, and two neighbouring entries differ by the vocabulary size
    of the column between them, plus 1 exactly when the class reserves an
    unknown slot ([DatasetFeat]) and plus 0 otherwise ([DatasetPure]). *)
Theorem feature_offset_steps (c : cls) (sparse_col : list string) (st : store) :
  c <> Dataset ->
  (forall col, col ∈ sparse_col -> is_Some (sparse_unique_vals st !! col)) ->
  exists offsets : list Z,
    _get_feature_offset c sparse_col st = Ok offsets /\
    length offsets = S (length sparse_col) /\
    offsets !! 0%nat = Some 0 /\
    forall (i : nat) (col : string),
      sparse_col !! i = Some col ->
      exists a b,
        offsets !! i = Some a /\ offsets !! S i = Some b /\
        b - a = vocabulary_size st col + (if reserve_unknown_slot c then 1 else 0).
Proof.
intros Hc Hreg.
rewrite get_feature_offset_unfold by done.
rewrite unique_value_counts_ok by done. cbn [result_bind].
eexists. split; [reflexivity|].
rewrite cumsum_leading_zero. split; [|split].
- simpl. by rewrite length_cumsum_from, length_map.
- done.
- intros i col Hi.
  destruct (cumsum_from_step
              (map (fun k => vocabulary_size st k + (if reserve_unknown_slot c then 1 else 0))
                 sparse_col) 0 i
              (vocabulary_size st col + (if reserve_unknown_slot c then 1 else 0)))
    as (a & b & Ha & Hb & Hab).
  + by rewrite list_lookup_fmap, Hi.
  + exists a, b. by repeat split.
Qed.

Lemma feature_offset_steps_witness :
  exists offsets : list Z,
    _get_feature_offset DatasetFeat [user; item]
      (set_unique_vals item [10; 20] (set_unique_vals user [1; 2; 3] fresh_store))
    = Ok offsets /\
    length offsets = S (length [user; item]) /\
    offsets !! 0%nat = Some 0 /\
    forall (i : nat) (col : string),
      [user; item] !! i = Some col ->
      exists a b,
        offsets !! i = Some a /\ offsets !! S i = Some b /\
        b - a = vocabulary_size
                  (set_unique_vals item [10; 20] (set_unique_vals user [1; 2; 3] fresh_store))
                  col
                + (if reserve_unknown_slot DatasetFeat then 1 else 0).
Proof.
  apply (feature_offset_steps DatasetFeat [user; item]).
  - discriminate.
  - intros col Hcol.
    apply elem_of_cons in Hcol as [->|Hcol]; [by eexists|].
    apply elem_of_cons in Hcol as [->|Hcol]; [by eexists|].
    by apply elem_of_nil in Hcol.
Defined.

(** ** The store under attribute assignments *)

Section store_facts.

Lemma store_eq (s t : store) :
  sparse_unique_vals s = sparse_unique_vals t ->
  base_user_indices s = base_user_indices t ->
  base_item_indices s = base_item_indices t ->
  pure_user_indices s = pure_user_indices t ->
  pure_item_indices s = pure_item_indices t ->
  feat_user_indices s = feat_user_indices t ->
  feat_item_indices s = feat_item_indices t ->
  s = t.
Proof. destruct s, t; simpl; congruence. Qed.

Lemma get_set_user (c : cls) (v : option (list Z)) (st : store) :
  get_user_indices c (set_user_indices c v st) = v.
Proof. by destruct c. Qed.

Lemma get_set_item (c : cls) (v : option (list Z)) (st : store) :
  get_item_indices c (set_item_indices c v st) = v.
Proof. by destruct c. Qed.

Lemma get_user_set_item (c k : cls) (v : option (list Z)) (st : store) :
  get_user_indices k (set_item_indices c v st) = get_user_indices k st.
Proof. by destruct k. Qed.

Lemma get_item_set_user (c k : cls) (v : option (list Z)) (st : store) :
  get_item_indices k (set_user_indices c v st) = get_item_indices k st.
Proof. by destruct k. Qed.

Lemma registry_record_indices (c : cls) (col : string) (idx : list Z) (st : store) :
  sparse_unique_vals (record_indices c col idx st) = sparse_unique_vals st.
Proof.
  unfold record_indices. by destruct (String.eqb col "user"), (String.eqb col "item").
Qed.

Lemma get_user_record_indices (c : cls) (col : string) (idx : list Z) (st : store) :
  get_user_indices c (record_indices c col idx st)
  = if decide (col = user) then Some idx else get_user_indices c st.
Proof.
  unfold record_indices, user.
  destruct (String.eqb_spec col "user") as [->|Hu].
  - by rewrite decide_True, get_set_user.
  - rewrite decide_False by done.
    destruct (String.eqb col "item"); [apply get_user_set_item|done].
Qed.

Lemma get_item_record_indices (c : cls) (col : string) (idx : list Z) (st : store) :
  get_item_indices c (record_indices c col idx st)
  = if decide (col = item) then Some idx else get_item_indices c st.
Proof.
  unfold record_indices, item.
  destruct (String.eqb_spec col "user") as [->|Hu].
  - rewrite decide_False by done. apply get_item_set_user.
  - destruct (String.eqb_spec col "item") as [->|Hi].
    + by rewrite decide_True, get_set_item.
    + by rewrite decide_False.
Qed.

Lemma registry_put_indices (c : cls) (ou oi : option (list Z)) (st : store) :
  sparse_unique_vals (put_indices c ou oi st) = sparse_unique_vals st.
Proof. by destruct ou, oi. Qed.

Lemma put_indices_none (c : cls) (st : store) : put_indices c None None st = st.
Proof. reflexivity. Qed.

(** Assigning the same values again changes nothing. *)
Lemma put_indices_twice (c : cls) (ou oi : option (list Z)) (st : store) :
  put_indices c ou oi (put_indices c ou oi st) = put_indices c ou oi st.
Proof.
  destruct ou, oi; simpl; apply store_eq; simpl; try done;
    by destruct c.
Qed.

(** A later assignment hides an earlier one to the same attribute. *)
Lemma put_indices_after_record (c : cls) (col : string) (idx : list Z)
    (ou oi : option (list Z)) (st : store) :
  put_indices c ou oi (record_indices c col idx st)
  = put_indices c
      (match ou with Some v => Some v | None => if String.eqb col "user" then Some idx else None end)
      (match oi with
       | Some v => Some v
       | None => if String.eqb col "user" then None
                 else if String.eqb col "item" then Some idx else None
       end) st.
Proof.
  unfold record_indices.
  destruct (String.eqb col "user"); [|destruct (String.eqb col "item")];
    destruct ou, oi; simpl; apply store_eq; simpl; try done; by destruct c.
Qed.

Lemma put_indices_set_unique_vals (c : cls) (ou oi : option (list Z))
    (col : string) (v : list Z) (st : store) :
  set_unique_vals col v (put_indices c ou oi st)
  = put_indices c ou oi (set_unique_vals col v st).
Proof. destruct ou, oi; simpl; by apply store_eq. Qed.

End store_facts.

(** ** The index matrix *)

Section matrix_facts.

Lemma zeros_shape (n m : nat) : has_shape n m (zeros n m).
Proof.
  unfold has_shape, zeros. split; [apply length_replicate|].
  apply Forall_replicate, length_replicate.
Qed.

Lemma zip_with_replicate_r {A B C} (f : A -> B -> C) (l : list A) (x : B) :
  zip_with f l (replicate (length l) x) = map (fun a => f a x) l.
Proof. induction l as [|a l IH]; simpl; [done|]. by rewrite IH. Qed.

Lemma written_column_length (n : nat) (v w : list Z) :
  written_column n v = Some w -> length w = n.
Proof.
  unfold written_column. destruct (Nat.eqb_spec (length v) n) as [Hn|Hn].
  - by intros [= <-].
  - destruct v as [|x [|y v]]; try done. intros [= <-]. apply length_replicate.
Qed.

(** On a well-formed frame the column written is the vector itself. *)
Lemma written_column_same (n : nat) (v : list Z) :
  length v = n -> written_column n v = Some v.
Proof. intros Hn. unfold written_column. by rewrite (proj2 (Nat.eqb_eq _ _) Hn). Qed.

Lemma written_column_elem (n : nat) (v w : list Z) (x : Z) :
  written_column n v = Some w -> x ∈ w -> x ∈ v.
Proof.
  unfold written_column. destruct (Nat.eqb_spec (length v) n) as [Hn|Hn].
  - by intros [= <-].
  - destruct v as [|y [|z v]]; try done. intros [= <-].
    intros [-> _]%elem_of_replicate. by left.
Qed.

Lemma assign_column_written (i : nat) (v : list Z) (mx : list (list Z)) :
  assign_column i v mx
  = match written_column (length mx) v with
    | Some w => Ok (zip_with (fun row x => <[i := x]> row) mx w)
    | None => Raise ValueError_broadcast
    end.
Proof.
  unfold assign_column, written_column.
  destruct (Nat.eqb_spec (length v) (length mx)) as [Hn|Hn]; [done|].
  destruct v as [|x [|y v]]; try done.
  by rewrite zip_with_replicate_r.
Qed.

Lemma assign_column_shape (n m i : nat) (w : list Z) (mx : list (list Z)) :
  has_shape n m mx -> length w = n ->
  has_shape n m (zip_with (fun row x => <[i := x]> row) mx w).
Proof.
  intros [Hlen Hrows] Hw. split.
  - rewrite length_zip_with. lia.
  - apply Forall_forall. intros row Hrow.
    apply list_elem_of_lookup in Hrow as (r & Hr).
    apply lookup_zip_with_Some in Hr as (row0 & x & -> & Hrow0 & _).
    rewrite length_insert. rewrite Forall_forall in Hrows.
    apply Hrows. by eapply list_elem_of_lookup_2.
Qed.

(** One turn of the loop of [_get_sparse_indices_matrix]. *)
Lemma fill_columns_cons (c : cls) (data : DataFrame) (mode : string) (i : nat)
    (col : string) (rest : list string) (mx : list (list Z)) (st : store) :
  fill_columns c data mode i (col :: rest) mx st
  = match get_column data col with
    | Raise e => (st, Raise e)
    | Ok vals =>
        match get_unique_vals col st with
        | Raise e => (st, Raise e)
        | Ok u =>
            match _sparse_indices vals u mode with
            | Raise e => (st, Raise e)
            | Ok idx =>
                match assign_column i idx mx with
                | Raise e => (record_indices c col idx st, Raise e)
                | Ok mx' =>
                    fill_columns c data mode (S i) rest mx' (record_indices c col idx st)
                end
            end
        end
    end.
Proof.
  cbn [fill_columns]. unfold_M. unfold record_indices.
  destruct (get_column data col) as [vals|e]; [|done].
  destruct (get_unique_vals col st) as [u|e]; [|done].
  destruct (String.eqb col "user"); [|destruct (String.eqb col "item")];
    destruct (_sparse_indices vals u mode) as [idx|e]; try done;
    by destruct (assign_column i idx mx).
Qed.

(** What a completed loop leaves behind: the matrix keeps its shape; the
    registry is untouched; position [i + j] of every row holds the entry
    that the encoder gave that row for the [j]-th column; positions before
    [i] are as they were; and each index attribute holds the encoding of
    its column if the column is listed, and its old value otherwise. *)
Lemma fill_columns_ok (c : cls) (data : DataFrame) (mode : string) (n m : nat)
    (sparse_col : list string) :
  forall (i : nat) (mx : list (list Z)) (st st' : store) (mx' : list (list Z)),
    fill_columns c data mode i sparse_col mx st = (st', Ok mx') ->
    has_shape n m mx -> (i + length sparse_col <= m)%nat ->
    has_shape n m mx' /\
    sparse_unique_vals st' = sparse_unique_vals st /\
    (forall (j : nat) col, sparse_col !! j = Some col ->
       exists vals u idx w,
         columns data !! col = Some vals /\
         sparse_unique_vals st !! col = Some u /\
         _sparse_indices vals u mode = Ok idx /\
         written_column n idx = Some w /\
         forall (r : nat) row, mx' !! r = Some row -> row !! (i + j)%nat = w !! r) /\
    (forall (pos r : nat) row row', (pos < i)%nat ->
       mx !! r = Some row -> mx' !! r = Some row' -> row' !! pos = row !! pos) /\
    (forall col, col = user \/ col = item ->
       (col ∈ sparse_col ->
          exists vals u idx,
            columns data !! col = Some vals /\
            sparse_unique_vals st !! col = Some u /\
            _sparse_indices vals u mode = Ok idx /\
            (if decide (col = user) then get_user_indices c st'
             else get_item_indices c st') = Some idx) /\
       (col ∉ sparse_col ->
          (if decide (col = user) then get_user_indices c st'
           else get_item_indices c st')
          = (if decide (col = user) then get_user_indices c st
             else get_item_indices c st))).
Proof.
  induction sparse_col as [|col rest IH]; intros i mx st st' mx' Hrun Hshape Hi.
  - simpl in Hrun. unfold_M. injection Hrun as <- <-.
    split; [done|]. split; [done|]. split; [done|]. split.
    + intros pos r row row' _ Hr Hr'. by simplify_eq.
    + intros col Hcol. split; [|done].
      intros Hin. by apply elem_of_nil in Hin.
  - rewrite fill_columns_cons in Hrun.
    destruct (get_column data col) as [vals|e] eqn:Hcol; [|done].
    destruct (get_unique_vals col st) as [u|e] eqn:Hu; [|done].
    destruct (_sparse_indices vals u mode) as [idx|e] eqn:Hidx; [|done].
    rewrite assign_column_written in Hrun.
    destruct Hshape as [Hlen Hrows]. rewrite Hlen in Hrun.
    destruct (written_column n idx) as [w|] eqn:Hw; [|done].
    pose proof (written_column_length _ _ _ Hw) as Hwlen.
    simpl in Hi.
    apply (IH (S i)) in Hrun as (Hshape' & Hreg & Hcols & Hkeep & Hattr);
      [|by apply assign_column_shape|lia].
    rewrite registry_record_indices in Hreg.
    unfold get_column in Hcol.
    destruct (columns data !! col) as [vals0|] eqn:Hc; [|done].
    injection Hcol as ->.
    unfold get_unique_vals in Hu.
    destruct (sparse_unique_vals st !! col) as [u0|] eqn:Hu0; [|done].
    injection Hu as ->.
    split; [done|]. split; [done|]. split; [|split].
    + intros [|j] k Hk; simpl in Hk.
      * injection Hk as <-. exists vals, u, idx, w.
        repeat split; try done.
        intros r row' Hr'. rewrite Nat.add_0_r.
        destruct (lookup_lt_is_Some_2 mx r) as [row Hr].
        { apply lookup_lt_Some in Hr'. destruct Hshape' as [-> _] in Hr'. lia. }
        destruct (lookup_lt_is_Some_2 w r) as [x Hx].
        { apply lookup_lt_Some in Hr. lia. }
        rewrite (Hkeep i r (<[i := x]> row) row' ltac:(lia)); [| |done].
        -- rewrite Hx. apply list_lookup_insert_eq.
           rewrite Forall_forall in Hrows.
           rewrite (Hrows row) by (by eapply list_elem_of_lookup_2). lia.
        -- by rewrite lookup_zip_with, Hr, Hx.
      * destruct (Hcols j k Hk) as (vals' & u' & idx' & w' & ? & Hu' & ? & ? & Hpos).
        rewrite registry_record_indices in Hu'.
        exists vals', u', idx', w'. repeat split; try done.
        intros r row Hr. rewrite <- (Hpos r row Hr). f_equal. lia.
    + intros pos r row row' Hpos Hr Hr'.
      destruct (lookup_lt_is_Some_2 w r) as [x Hx].
      { apply lookup_lt_Some in Hr. lia. }
      rewrite (Hkeep pos r (<[i := x]> row) row' ltac:(lia)); [| |done].
      * apply list_lookup_insert_ne. lia.
      * by rewrite lookup_zip_with, Hr, Hx.
    + intros k Hk. destruct (Hattr k Hk) as [Hin Hnin].
      rewrite registry_record_indices in Hin.
      split.
      * intros Hmem. destruct (decide (k ∈ rest)) as [Hr|Hr]; [by apply Hin|].
        apply elem_of_cons in Hmem as [->|?]; [|done].
        exists vals, u, idx. repeat split; try done.
        rewrite (Hnin Hr).
        destruct (decide (col = user)) as [->|Hne].
        -- rewrite get_user_record_indices. by rewrite decide_True.
        -- destruct Hk as [-> | ->]; [done|].
           rewrite get_item_record_indices. by rewrite decide_True.
      * intros Hmem. apply not_elem_of_cons in Hmem as [Hne Hr].
        rewrite (Hnin Hr).
        destruct (decide (k = user)) as [->|Hku].
        -- rewrite get_user_record_indices. by rewrite decide_False.
        -- rewrite get_item_record_indices.
           destruct Hk as [-> | ->]; [done|]. by rewrite decide_False.
Qed.

End matrix_facts.

Section matrix_offsets.

Lemma lookup_removelast (l : list Z) (j : nat) :
  (S j < length l)%nat -> removelast l !! j = l !! j.
Proof.
  revert j. induction l as [|x l IH]; intros j Hj; [simpl in Hj; lia|].
  destruct l as [|y l]; [simpl in Hj; lia|].
  destruct j as [|j]; [done|].
  change (removelast (x :: y :: l)) with (x :: removelast (y :: l)).
  simpl. apply IH. simpl in *. lia.
Qed.

Lemma removelast_length (l : list Z) : length (removelast l) = pred (length l).
Proof. rewrite removelast_firstn_len, length_take. lia. Qed.

(** [_get_feature_offset] reads nothing but the registry. *)
Lemma get_feature_offset_registry (c : cls) (sparse_col : list string) (s t : store) :
  sparse_unique_vals s = sparse_unique_vals t ->
  _get_feature_offset c sparse_col s = _get_feature_offset c sparse_col t.
Proof.
  intros Hreg. unfold _get_feature_offset.
  assert (forall extra, unique_value_counts extra s sparse_col
                        = unique_value_counts extra t sparse_col) as Hc.
  { intros extra. induction sparse_col as [|col rest IH]; simpl; [done|].
    unfold get_unique_vals. by rewrite Hreg, IH. }
  by rewrite !Hc.
Qed.

Lemma get_feature_offset_inv (c : cls) (sparse_col : list string) (st : store)
    (offsets : list Z) :
  _get_feature_offset c sparse_col st = Ok offsets ->
  c <> Dataset /\
  (forall col, col ∈ sparse_col -> is_Some (sparse_unique_vals st !! col)).
Proof.
  intros Hoff. assert (c <> Dataset) as Hc.
  { intros ->. by rewrite get_feature_offset_base in Hoff. }
  split; [done|].
  rewrite get_feature_offset_unfold in Hoff by done.
  destruct (unique_value_counts _ st sparse_col) as [counts|] eqn:Hcounts; [|done].
  by eapply unique_value_counts_inv.
Qed.

(** The offsets start at 0 and ascend. *)
Lemma get_feature_offset_ascending (c : cls) (sparse_col : list string) (st : store)
    (offsets : list Z) (i j : nat) (a b : Z) :
  _get_feature_offset c sparse_col st = Ok offsets ->
  (i <= j)%nat -> offsets !! i = Some a -> offsets !! j = Some b ->
  0 <= a <= b.
Proof.
  intros Hoff Hij Ha Hb.
  destruct (get_feature_offset_inv _ _ _ _ Hoff) as [Hc Hreg].
  rewrite get_feature_offset_unfold in Hoff by done.
  rewrite unique_value_counts_ok in Hoff by done. cbn [result_bind] in Hoff.
  injection Hoff as <-. rewrite cumsum_leading_zero in Ha, Hb.
  assert (Forall (fun x => 0 <= x)
            (map (fun col => vocabulary_size st col
                             + (if reserve_unknown_slot c then 1 else 0)) sparse_col))
    as Hnonneg.
  { apply Forall_forall. intros x Hx. apply list_elem_of_fmap in Hx as (col & -> & _).
    unfold vocabulary_size. destruct (reserve_unknown_slot c); lia. }
  split.
  - eapply (cumsum_from_ascending _ 0 0%nat i); [done|lia|done|done].
  - eapply (cumsum_from_ascending _ 0 i j); done.
Qed.

(** The returned matrix, entry by entry: the encoder's local index of the
    row for the column, shifted by the offset of the column. *)
Lemma get_sparse_indices_matrix_ok (c : cls) (data : DataFrame) (sparse_col : list string)
    (mode : string) (st st' : store) (mx : list (list Z)) :
  _get_sparse_indices_matrix c data sparse_col mode st = (st', Ok mx) ->
  exists offsets,
    _get_feature_offset c sparse_col st = Ok offsets /\
    has_shape (n_rows data) (length sparse_col) mx /\
    sparse_unique_vals st' = sparse_unique_vals st /\
    (forall (j : nat) col, sparse_col !! j = Some col ->
       exists vals u idx w off,
         columns data !! col = Some vals /\
         sparse_unique_vals st !! col = Some u /\
         _sparse_indices vals u mode = Ok idx /\
         written_column (n_rows data) idx = Some w /\
         offsets !! j = Some off /\
         forall (r : nat) row, mx !! r = Some row ->
           row !! j = (fun x => x + off) <$> (w !! r)) /\
    (forall col, col = user \/ col = item ->
       (col ∈ sparse_col ->
          exists vals u idx,
            columns data !! col = Some vals /\
            sparse_unique_vals st !! col = Some u /\
            _sparse_indices vals u mode = Ok idx /\
            (if decide (col = user) then get_user_indices c st'
             else get_item_indices c st') = Some idx) /\
       (col ∉ sparse_col ->
          (if decide (col = user) then get_user_indices c st'
           else get_item_indices c st')
          = (if decide (col = user) then get_user_indices c st
             else get_item_indices c st))).
Proof.
  unfold _get_sparse_indices_matrix. unfold_M. intros Hrun.
  destruct (fill_columns c data mode 0 sparse_col
              (zeros (n_rows data) (length sparse_col)) st) as [s1 [raw|e]] eqn:Hfill;
    [|done].
  destruct (_get_feature_offset c sparse_col s1) as [offsets|e] eqn:Hoff; [|done].
  injection Hrun as <- <-.
  apply (fill_columns_ok c data mode (n_rows data) (length sparse_col)) in Hfill
    as (Hshape & Hreg & Hcols & _ & Hattr); [|apply zeros_shape|simpl; lia].
  rewrite (get_feature_offset_registry c sparse_col s1 st Hreg) in Hoff.
  destruct (get_feature_offset_inv _ _ _ _ Hoff) as [Hc Hall].
  destruct (get_feature_offset_table c sparse_col st Hc Hall)
    as (offsets' & Hoff' & Hlen & _ & _).
  rewrite Hoff in Hoff'. injection Hoff' as <-.
  destruct Hshape as [Hrows Hwidth].
  exists offsets. split; [done|]. split; [|split; [done|split; [|done]]].
  - split.
    + unfold add_offsets. by rewrite length_map.
    + unfold add_offsets. apply Forall_fmap, Forall_forall. intros row Hrow. simpl.
      rewrite Forall_forall in Hwidth. rewrite length_zip_with, (Hwidth row Hrow).
      rewrite removelast_length. lia.
  - intros j col Hj.
    destruct (Hcols j col Hj) as (vals & u & idx & w & Hv & Hu & Hidx & Hw & Hpos).
    destruct (lookup_lt_is_Some_2 offsets j) as [off Hoffj].
    { apply lookup_lt_Some in Hj. lia. }
    exists vals, u, idx, w, off. repeat split; try done.
    intros r row Hr. unfold add_offsets in Hr.
    rewrite list_lookup_fmap in Hr.
    destruct (raw !! r) as [row0|] eqn:Hraw; [|done].
    injection Hr as <-.
    rewrite lookup_zip_with, lookup_removelast, Hoffj
      by (apply lookup_lt_Some in Hj; lia).
    specialize (Hpos r row0 Hraw). simpl in Hpos. rewrite Hpos.
    by destruct (w !! r).
Qed.

End matrix_offsets.

(** ** Global indices stay inside their column's range (C4) *)

(** In train mode an entry of a column whose vocabulary was built from that
    column is a position of the vocabulary. *)
Lemma train_local_index_bound (vals idx : list Z) (y : Z) :
  _sparse_indices vals (Np.unique vals) "train" = Ok idx ->
  y ∈ idx ->
  0 <= y < Z.of_nat (length (Np.unique vals)).
Proof.
  rewrite sparse_indices_train. intros [= <-] Hy.
  unfold Np.searchsorted in Hy. apply list_elem_of_fmap in Hy as (v & -> & Hv).
  destruct (searchsorted1_member (Np.unique vals) v) as (r & -> & Hr).
  - apply strictly_sorted_le, unique_strictly_sorted.
  - by apply elem_of_unique.
  - apply lookup_lt_Some in Hr. lia.
Qed.

(** C4.  When the vocabulary of the encoded columns was built from the
    table being encoded, every entry of the matrix that
    [_get_sparse_indices_matrix] returns in train mode lies in
    [[0, OffsetTable[-1])], and an entry of column [i] lies in
    [[OffsetTable[i], OffsetTable[i+1])]. *)
Theorem sparse_indices_within_offsets (c : cls) (data : DataFrame)
    (built_col sparse_col : list string) (st0 st st' : store) (mx : list (list Z)) :
  _set_sparse_unique_vals c data built_col st0 = (st, Ok tt) ->
  sparse_col ⊆ built_col ->
  _get_sparse_indices_matrix c data sparse_col "train" st = (st', Ok mx) ->
  exists (offsets : list Z) (total : Z),
    _get_feature_offset c sparse_col st = Ok offsets /\
    last offsets = Some total /\
    forall (r : nat) (row : list Z) (i : nat) (x : Z),
      mx !! r = Some row -> row !! i = Some x ->
      0 <= x < total /\
      exists a b, offsets !! i = Some a /\ offsets !! S i = Some b /\ a <= x < b.
Proof.
  intros Hbuilt Hsub Hrun.
  apply set_sparse_unique_vals_ok in Hbuilt as (_ & Hreg & _).
  apply get_sparse_indices_matrix_ok in Hrun
    as (offsets & Hoff & [Hrows Hwidth] & _ & Hcols & _).
  destruct (get_feature_offset_inv _ _ _ _ Hoff) as [Hc Hall].
  destruct (get_feature_offset_table c sparse_col st Hc Hall)
    as (offsets' & Hoff' & Hlen & _ & Hsteps).
  rewrite Hoff in Hoff'. injection Hoff' as <-.
  destruct (lookup_lt_is_Some_2 offsets (length sparse_col)) as [total Htotal]; [lia|].
  exists offsets, total. split; [done|]. split.
  { rewrite last_lookup, Hlen. done. }
  intros r row i x Hr Hx.
  assert (i < length sparse_col)%nat as Hi.
  { rewrite Forall_forall in Hwidth.
    rewrite <- (Hwidth row) by (by eapply list_elem_of_lookup_2).
    by eapply lookup_lt_Some. }
  destruct (lookup_lt_is_Some_2 sparse_col i Hi) as [col Hcol].
  destruct (Hcols i col Hcol) as (vals & u & idx & w & off & Hv & Hu & Hidx & Hw & Ho & Hpos).
  rewrite (Hpos r row Hr) in Hx.
  destruct (w !! r) as [y|] eqn:Hy; [|done]. injection Hx as <-.
  assert (u = Np.unique vals) as ->.
  { specialize (Hreg col).
    rewrite decide_True in Hreg by (apply Hsub; by eapply list_elem_of_lookup_2).
    rewrite Hv, Hu in Hreg. by injection Hreg. }
  assert (0 <= y < Z.of_nat (length (Np.unique vals))) as Hybound.
  { eapply train_local_index_bound; [done|].
    eapply written_column_elem; [done|]. by eapply list_elem_of_lookup_2. }
  destruct (Hsteps i col Hcol) as (a & b & Ha & Hb & Hab).
  rewrite Ho in Ha. injection Ha as <-.
  unfold vocabulary_size in Hab. rewrite Hu in Hab. simpl in Hab.
  pose proof (get_feature_offset_ascending c sparse_col st offsets i (S i) off b
                Hoff ltac:(lia) Ho Hb) as Hoffb.
  pose proof (get_feature_offset_ascending c sparse_col st offsets (S i)
                (length sparse_col) b total Hoff ltac:(lia) Hb Htotal) as Hbt.
  assert (y + off < b) by (destruct (reserve_unknown_slot c); lia).
  split; [lia|]. exists off, b. repeat split; [done|done|lia|lia].
Qed.

Lemma sparse_indices_within_offsets_witness :
  exists (offsets : list Z) (total : Z),
    _get_feature_offset DatasetFeat [user; item; "age"]
      (set_unique_vals "age" [20; 30; 40]
         (set_unique_vals item [10; 20] (set_unique_vals user [1; 2; 3] fresh_store)))
    = Ok offsets /\
    last offsets = Some total /\
    forall (r : nat) (row : list Z) (i : nat) (x : Z),
      [[0; 4; 8]; [1; 5; 7]; [2; 4; 8]; [1; 4; 9]] !! r = Some row -> row !! i = Some x ->
      0 <= x < total /\
      exists a b, offsets !! i = Some a /\ offsets !! S i = Some b /\ a <= x < b.
Proof.
  apply (sparse_indices_within_offsets DatasetFeat table1 [user; item; "age"]
           [user; item; "age"] fresh_store _
           (set_item_indices DatasetFeat (Some [0; 1; 0; 0])
              (set_user_indices DatasetFeat (Some [0; 1; 2; 1])
                 (set_unique_vals "age" [20; 30; 40]
                    (set_unique_vals item [10; 20]
                       (set_unique_vals user [1; 2; 3] fresh_store)))))).
  - vm_compute. reflexivity.
  - intros col Hcol. exact Hcol.
  - vm_compute. reflexivity.
Defined.

(** ** The standalone user and item vectors (C10) *)

Lemma sparse_indices_length (values unique idx : list Z) (mode : string) :
  _sparse_indices values unique mode = Ok idx -> length idx = length values.
Proof.
  unfold _sparse_indices.
  destruct (String.eqb mode "test").
  - simpl. intros [= <-].
    unfold Np.mask_assign, Np.searchsorted, Np.in1d_invert.
    rewrite length_zip_with, !length_map. lia.
  - destruct (String.eqb mode "train"); [|done].
    intros [= <-]. unfold Np.searchsorted. by rewrite length_map.
Qed.

Lemma frame_wf_column (data : DataFrame) (col : string) (vals : list Z) :
  frame_wf data -> columns data !! col = Some vals -> length vals = n_rows data.
Proof. intros Hwf Hcol. exact (map_Forall_lookup_1 _ _ _ _ Hwf Hcol). Qed.

(** The entries of one matrix column, for a listed column of a well-formed
    frame: the encoder's output for that column, shifted by its offset. *)
Lemma matrix_column_of (c : cls) (data : DataFrame) (sparse_col : list string)
    (mode : string) (st st' : store) (mx : list (list Z)) (offsets : list Z)
    (col : string) (vals u idx : list Z) :
  frame_wf data ->
  _get_sparse_indices_matrix c data sparse_col mode st = (st', Ok mx) ->
  _get_feature_offset c sparse_col st = Ok offsets ->
  columns data !! col = Some vals ->
  sparse_unique_vals st !! col = Some u ->
  _sparse_indices vals u mode = Ok idx ->
  forall (pos : nat) (off : Z) (r : nat) (row : list Z),
    sparse_col !! pos = Some col -> offsets !! pos = Some off -> mx !! r = Some row ->
    row !! pos = (fun x => x + off) <$> (idx !! r).
Proof.
  intros Hwf Hrun Hoff Hvals Hu Hidx pos off r row Hpos Hoffpos Hr.
  apply get_sparse_indices_matrix_ok in Hrun as (offsets' & Hoff' & _ & _ & Hcols & _).
  rewrite Hoff in Hoff'. injection Hoff' as <-.
  destruct (Hcols pos col Hpos)
    as (vals' & u' & idx' & w & off' & Hvals' & Hu' & Hidx' & Hw & Hoff' & Hrow).
  simplify_eq. rewrite Hidx in Hidx'. injection Hidx' as <-.
  rewrite written_column_same in Hw.
  - injection Hw as <-. by apply Hrow.
  - rewrite (sparse_indices_length _ _ _ _ Hidx). by eapply frame_wf_column.
Qed.

(** C10.  After [_get_sparse_indices_matrix] has encoded a table whose
    sparse columns include [user] and [item], the class attributes
    [user_indices] and [item_indices] hold what the encoder returned for the
    two columns, column-local indices with no offset added, while in the
    returned matrix every entry of a [user] or [item] column is that same
    local index plus the base offset of the column. *)
Theorem standalone_indices_are_local (c : cls) (data : DataFrame)
    (sparse_col : list string) (mode : string) (st st' : store) (mx : list (list Z)) :
  frame_wf data ->
  user ∈ sparse_col ->
  item ∈ sparse_col ->
  _get_sparse_indices_matrix c data sparse_col mode st = (st', Ok mx) ->
  exists (offsets user_vals user_voc user_idx item_vals item_voc item_idx : list Z),
    _get_feature_offset c sparse_col st = Ok offsets /\
    columns data !! user = Some user_vals /\
    sparse_unique_vals st !! user = Some user_voc /\
    _sparse_indices user_vals user_voc mode = Ok user_idx /\
    get_user_indices c st' = Some user_idx /\
    columns data !! item = Some item_vals /\
    sparse_unique_vals st !! item = Some item_voc /\
    _sparse_indices item_vals item_voc mode = Ok item_idx /\
    get_item_indices c st' = Some item_idx /\
    forall (pos : nat) (off : Z) (r : nat) (row : list Z),
      offsets !! pos = Some off -> mx !! r = Some row ->
      (sparse_col !! pos = Some user ->
       row !! pos = (fun x => x + off) <$> (user_idx !! r)) /\
      (sparse_col !! pos = Some item ->
       row !! pos = (fun x => x + off) <$> (item_idx !! r)).
Proof.
  intros Hwf Huser Hitem Hrun.
  pose proof Hrun as Hrun'.
  apply get_sparse_indices_matrix_ok in Hrun' as (offsets & Hoff & _ & _ & _ & Hattr).
  destruct (Hattr user ltac:(by left)) as [Hu _].
  destruct (Hu Huser) as (uvals & uvoc & uidx & Huv & Huu & Hui & Hug).
  destruct (Hattr item ltac:(by right)) as [Hi _].
  destruct (Hi Hitem) as (ivals & ivoc & iidx & Hiv & Hiu & Hii & Hig).
  rewrite decide_True in Hug by done. rewrite decide_False in Hig by done.
  exists offsets, uvals, uvoc, uidx, ivals, ivoc, iidx.
  repeat split; try done.
  - intros Hpos. by eapply (matrix_column_of c data sparse_col mode st st' mx offsets user).
  - intros Hpos. by eapply (matrix_column_of c data sparse_col mode st st' mx offsets item).
Qed.

Lemma standalone_indices_are_local_witness :
  exists (offsets user_vals user_voc user_idx item_vals item_voc item_idx : list Z),
    _get_feature_offset DatasetFeat [user; item; "age"]
      (set_unique_vals "age" [20; 30; 40]
         (set_unique_vals item [10; 20] (set_unique_vals user [1; 2; 3] fresh_store)))
    = Ok offsets /\
    columns table1 !! user = Some user_vals /\
    sparse_unique_vals
      (set_unique_vals "age" [20; 30; 40]
         (set_unique_vals item [10; 20] (set_unique_vals user [1; 2; 3] fresh_store)))
      !! user = Some user_voc /\
    _sparse_indices user_vals user_voc "train" = Ok user_idx /\
    get_user_indices DatasetFeat
      (set_item_indices DatasetFeat (Some [0; 1; 0; 0])
         (set_user_indices DatasetFeat (Some [0; 1; 2; 1])
            (set_unique_vals "age" [20; 30; 40]
               (set_unique_vals item [10; 20]
                  (set_unique_vals user [1; 2; 3] fresh_store)))))
    = Some user_idx /\
    columns table1 !! item = Some item_vals /\
    sparse_unique_vals
      (set_unique_vals "age" [20; 30; 40]
         (set_unique_vals item [10; 20] (set_unique_vals user [1; 2; 3] fresh_store)))
      !! item = Some item_voc /\
    _sparse_indices item_vals item_voc "train" = Ok item_idx /\
    get_item_indices DatasetFeat
      (set_item_indices DatasetFeat (Some [0; 1; 0; 0])
         (set_user_indices DatasetFeat (Some [0; 1; 2; 1])
            (set_unique_vals "age" [20; 30; 40]
               (set_unique_vals item [10; 20]
                  (set_unique_vals user [1; 2; 3] fresh_store)))))
    = Some item_idx /\
    forall (pos : nat) (off : Z) (r : nat) (row : list Z),
      offsets !! pos = Some off ->
      [[0; 4; 8]; [1; 5; 7]; [2; 4; 8]; [1; 4; 9]] !! r = Some row ->
      ([user; item; "age"] !! pos = Some user ->
       row !! pos = (fun x => x + off) <$> (user_idx !! r)) /\
      ([user; item; "age"] !! pos = Some item ->
       row !! pos = (fun x => x + off) <$> (item_idx !! r)).
Proof.
  apply (standalone_indices_are_local DatasetFeat table1 [user; item; "age"] "train").
  - unfold frame_wf. compute_done.
  - compute_done.
  - compute_done.
  - vm_compute. reflexivity.
Defined.

(** ** Steps that read, and the validation step *)

Section effect_facts.

Lemma bind_lift {A B} (r : result A) (k : A -> M B) (st : store) :
  bind (lift r) k st = match r with Ok a => k a st | Raise e => (st, Raise e) end.
Proof. unfold_M. by destruct r. Qed.

Lemma readonly_bind {A B} (m : M A) (k : A -> M B) :
  readonly m -> (forall a, readonly (k a)) -> readonly (bind m k).
Proof.
  intros Hm Hk st. unfold bind. specialize (Hm st).
  destruct (m st) as [s [a|e']]; simpl in Hm; subst s; [apply Hk|done].
Qed.

Lemma readonly_lift {A} (r : result A) : readonly (lift r).
Proof. intros st. done. Qed.

Lemma readonly_ret {A} (a : A) : readonly (ret a).
Proof. intros st. done. Qed.

Lemma readonly_gets {A} (f : store -> A) : readonly (gets f).
Proof. intros st. done. Qed.

(** The validation step. *)
Lemma check_col_names_spec (data : DataFrame) :
  (missing_required data /\
   _check_col_names data = Raise (KeyError required_columns_message)) \/
  (~ missing_required data /\ _check_col_names data = Ok tt).
Proof.
  unfold _check_col_names, missing_required, has_column. simpl.
  destruct (columns data !! user) as [u|] eqn:Hu;
    destruct (columns data !! item) as [i|] eqn:Hi;
    destruct (columns data !! label) as [l|] eqn:Hl; simpl;
    try (left; split; [tauto|reflexivity]).
  right. split; [|reflexivity]. intros [H|[H|H]]; done.
Qed.

End effect_facts.

(** ** The schema check of [build_trainset] (C7) *)

Section build_trainset_steps.

Variable mapping : Type.
Variable col_name2index :
  list string -> option (list string) -> option (list string) -> option (list string) ->
  string + mapping.
Variable item_sparse_col_values : mapping -> string + list Z.
Variable construct_unique_item_feat :
  list (list Z) -> option (list (list Z)) -> list Z ->
  string + (list (list Z) * option (list (list Z))).

Local Abbreviation pure_after_checks := (pure_after_checks mapping).
Local Abbreviation feat_after_matrix :=
  (feat_after_matrix mapping col_name2index item_sparse_col_values
     construct_unique_item_feat).
Local Abbreviation feat_after_checks :=
  (feat_after_checks mapping col_name2index item_sparse_col_values
     construct_unique_item_feat).

Lemma pure_build_trainset_unfold (train_data : DataFrame) (sparse_col : list string)
    (st : store) :
  DatasetPure_build_trainset train_data sparse_col st
  = match _check_col_names train_data with
    | Ok _ => pure_after_checks train_data sparse_col st
    | Raise e => (st, Raise e)
    end.
Proof.
  unfold DatasetPure_build_trainset. rewrite bind_lift. simpl _check_subclass.
  cbv iota. by rewrite bind_lift.
Qed.

Lemma feat_build_trainset_unfold (train_data : DataFrame) (sparse_col : list string)
    (dense_col user_col item_col : option (list string)) (neg : bool) (st : store) :
  DatasetFeat_build_trainset mapping col_name2index item_sparse_col_values
    construct_unique_item_feat train_data sparse_col dense_col user_col item_col neg st
  = match _check_col_names train_data with
    | Ok _ => feat_after_checks train_data sparse_col dense_col user_col item_col neg st
    | Raise e => (st, Raise e)
    end.
Proof.
  unfold DatasetFeat_build_trainset. rewrite bind_lift. simpl _check_subclass.
  cbv iota. by rewrite bind_lift.
Qed.

End build_trainset_steps.

(** C7 does not hold of the code as an equivalence.  The table [table1] has
    the columns [user], [item] and [label], and [build_trainset] with the
    sparse columns [user], [item] and [zip] still ends in a [KeyError], the
    class of the validation error: the one that the lookup of the column
    [zip] raises, after the vocabularies of [user] and [item] were
    stored. *)
Lemma schema_error_without_missing_column :
  ~ missing_required table1 /\
  exists st',
    DatasetFeat_build_trainset unit (fun _ _ _ _ => inr tt) (fun _ => inr [])
      (fun m d _ => inr (m, d)) table1 [user; item; "zip"] None None None false fresh_store
    = (st', Raise (KeyError "zip")) /\
    @DatasetPure_build_trainset unit table1 [user; item; "zip"] fresh_store
    = (st', Raise (KeyError "zip")) /\
    sparse_unique_vals st' !! user = Some [1; 2; 3] /\
    sparse_unique_vals st' !! item = Some [10; 20] /\
    st' <> fresh_store.
Proof.
  split.
  - unfold missing_required. intros [H|[H|H]]; vm_compute in H; discriminate H.
  - eexists. split; [vm_compute; reflexivity|].
    split; [vm_compute; reflexivity|].
    split; [vm_compute; reflexivity|].
    split; [vm_compute; reflexivity|].
    intros H. apply (f_equal (fun s => sparse_unique_vals s !! user)) in H.
    vm_compute in H. discriminate H.
Qed.

(** C7, as the code has it.  The validation step [_check_col_names] raises
    if and only if one of the columns [user], [item], [label] is not in
    the table, and what it raises is the [KeyError] with its message.
    When a column is missing, [DatasetPure.build_trainset] and
    [DatasetFeat.build_trainset] end in that error, raised by the
    validation step before the registry is written or anything is
    encoded: the store is left as the call found it.  When none is
    missing the validation step passes and the call goes on to build the
    vocabularies. *)
Theorem schema_error_when_missing (mapping : Type)
    (col_name2index :
       list string -> option (list string) -> option (list string) ->
       option (list string) -> string + mapping)
    (item_sparse_col_values : mapping -> string + list Z)
    (construct_unique_item_feat :
       list (list Z) -> option (list (list Z)) -> list Z ->
       string + (list (list Z) * option (list (list Z))))
    (train_data : DataFrame) (sparse_col : list string)
    (dense_col user_col item_col : option (list string)) (neg : bool) (st : store) :
  let pure := @DatasetPure_build_trainset mapping train_data sparse_col st in
  let feat :=
    DatasetFeat_build_trainset mapping col_name2index item_sparse_col_values
      construct_unique_item_feat train_data sparse_col dense_col user_col item_col neg st in
  ((exists e, _check_col_names train_data = Raise e) <-> missing_required train_data) /\
  (forall e, _check_col_names train_data = Raise e ->
     e = KeyError required_columns_message) /\
  (missing_required train_data ->
   pure = (st, Raise (KeyError required_columns_message)) /\
   feat = (st, Raise (KeyError required_columns_message))) /\
  (~ missing_required train_data ->
   pure = pure_after_checks mapping train_data sparse_col st /\
   feat = feat_after_checks mapping col_name2index item_sparse_col_values
            construct_unique_item_feat train_data sparse_col dense_col user_col
            item_col neg st).
Proof.
  intros pure feat. subst pure feat.
  rewrite pure_build_trainset_unfold, feat_build_trainset_unfold.
  destruct (check_col_names_spec train_data) as [[Hmiss ->]|[Hall ->]].
  - split; [split; [done|by eexists]|].
    split; [by intros e [= <-]|]. split; [done|]. intros Hnot. by destruct Hnot.
  - split; [split; [by intros [e He]|done]|].
    split; [by intros e He|]. split; [done|]. done.
Qed.

(** ** Calling [build_trainset] again (C8) *)

Section rerun_facts.

Variable data : DataFrame.

Lemma attrs_with_vocab (ks : list string) (st : store) :
  base_user_indices (with_vocab data ks st) = base_user_indices st /\
  base_item_indices (with_vocab data ks st) = base_item_indices st /\
  pure_user_indices (with_vocab data ks st) = pure_user_indices st /\
  pure_item_indices (with_vocab data ks st) = pure_item_indices st /\
  feat_user_indices (with_vocab data ks st) = feat_user_indices st /\
  feat_item_indices (with_vocab data ks st) = feat_item_indices st.
Proof. unfold with_vocab. induction ks as [|k ks IH]; simpl; [done|]. exact IH. Qed.

Lemma registry_with_vocab (ks : list string) (st : store) (k : string) :
  sparse_unique_vals (with_vocab data ks st) !! k
  = if decide (k ∈ ks) then Some (Np.unique (default [] (columns data !! k)))
    else sparse_unique_vals st !! k.
Proof.
  unfold with_vocab. induction ks as [|k0 ks IH]; cbn [foldr].
  - rewrite decide_False; [done|apply not_elem_of_nil].
  - cbn [set_unique_vals sparse_unique_vals].
    destruct (decide (k = k0)) as [->|Hne].
    + rewrite lookup_insert_eq. rewrite decide_True; [done|by left].
    + rewrite lookup_insert_ne by done. rewrite IH.
      destruct (decide (k ∈ ks)) as [Hin|Hnin].
      * rewrite decide_True; [done|by right].
      * rewrite decide_False; [done|]. rewrite elem_of_cons. tauto.
Qed.

(** Entering the same columns of the same table again changes nothing. *)
Lemma with_vocab_twice (ks : list string) (st : store) :
  with_vocab data ks (with_vocab data ks st) = with_vocab data ks st.
Proof.
  destruct (attrs_with_vocab ks (with_vocab data ks st)) as (? & ? & ? & ? & ? & ?).
  apply store_eq; try done.
  apply map_eq. intros k. rewrite !registry_with_vocab.
  by destruct (decide (k ∈ ks)).
Qed.

Lemma with_vocab_put_indices (c : cls) (ou oi : option (list Z)) (ks : list string)
    (st : store) :
  with_vocab data ks (put_indices c ou oi st) = put_indices c ou oi (with_vocab data ks st).
Proof.
  unfold with_vocab. induction ks as [|k ks IH]; simpl; [done|].
  by rewrite IH, put_indices_set_unique_vals.
Qed.

(** [_set_sparse_unique_vals] enters a prefix of the listed columns and its
    outcome does not depend on the store. *)
Lemma set_sparse_unique_vals_frame (c : cls) (sparse_col : list string) :
  exists (ks : list string) (r : result unit),
    forall st, _set_sparse_unique_vals c data sparse_col st = (with_vocab data ks st, r).
Proof.
  induction sparse_col as [|col rest IH].
  - by exists [], (Ok tt).
  - destruct (columns data !! col) as [vals|] eqn:Hcol.
    + destruct IH as (ks & r & Hrest).
      exists (ks ++ [col]), r. intros st. simpl. unfold_M. unfold get_column.
      rewrite Hcol, Hrest. unfold with_vocab. rewrite foldr_app. simpl.
      by rewrite Hcol.
    + exists [], (Raise (KeyError col)). intros st. simpl. unfold_M. unfold get_column.
      by rewrite Hcol.
Qed.

(** The loop of [_get_sparse_indices_matrix] reads the registry only; it
    writes the two index attributes, to values the registry determines. *)
Lemma fill_columns_frame (c : cls) (mode : string) (sparse_col : list string)
    (reg : gmap string (list Z)) :
  forall (i : nat) (mx : list (list Z)),
  exists (ou oi : option (list Z)) (r : result (list (list Z))),
    forall st, sparse_unique_vals st = reg ->
      fill_columns c data mode i sparse_col mx st = (put_indices c ou oi st, r).
Proof.
  induction sparse_col as [|col rest IH]; intros i mx.
  - by exists None, None, (Ok mx).
  - destruct (get_column data col) as [vals|e] eqn:Hcol.
    2:{ exists None, None, (Raise e). intros st _. by rewrite fill_columns_cons, Hcol. }
    destruct (reg !! col) as [u|] eqn:Hu.
    2:{ exists None, None, (Raise (KeyError col)). intros st Hreg.
        rewrite fill_columns_cons, Hcol. unfold get_unique_vals. by rewrite Hreg, Hu. }
    destruct (_sparse_indices vals u mode) as [idx|e] eqn:Hidx.
    2:{ exists None, None, (Raise e). intros st Hreg.
        rewrite fill_columns_cons, Hcol. unfold get_unique_vals.
        by rewrite Hreg, Hu, Hidx. }
    destruct (assign_column i idx mx) as [mx'|e] eqn:Hassign.
    + destruct (IH (S i) mx') as (ou & oi & r & Hrest).
      eexists _, _, r. intros st Hreg.
      rewrite fill_columns_cons, Hcol. unfold get_unique_vals.
      rewrite Hreg, Hu, Hidx, Hassign.
      rewrite Hrest by (by rewrite registry_record_indices).
      by rewrite put_indices_after_record.
    + eexists _, _, (Raise e). intros st Hreg.
      rewrite fill_columns_cons, Hcol. unfold get_unique_vals.
      rewrite Hreg, Hu, Hidx, Hassign.
      rewrite <- (put_indices_none c (record_indices c col idx st)).
      by rewrite put_indices_after_record.
Qed.

Lemma get_sparse_indices_matrix_frame (c : cls) (mode : string) (sparse_col : list string)
    (reg : gmap string (list Z)) :
  exists (ou oi : option (list Z)) (r : result (list (list Z))),
    forall st, sparse_unique_vals st = reg ->
      _get_sparse_indices_matrix c data sparse_col mode st = (put_indices c ou oi st, r).
Proof.
  destruct (fill_columns_frame c mode sparse_col reg 0
              (zeros (n_rows data) (length sparse_col))) as (ou & oi & r & Hfill).
  destruct r as [raw|e].
  - destruct (_get_feature_offset c sparse_col
                {| sparse_unique_vals := reg;
                   base_user_indices := None; base_item_indices := None;
                   pure_user_indices := None; pure_item_indices := None;
                   feat_user_indices := None; feat_item_indices := None |})
      as [offsets|e] eqn:Hoff.
    + exists ou, oi, (Ok (add_offsets raw (removelast offsets))). intros st Hreg.
      unfold _get_sparse_indices_matrix. unfold_M. rewrite (Hfill st Hreg).
      erewrite get_feature_offset_registry; [rewrite Hoff; done|].
      by rewrite registry_put_indices.
    + exists ou, oi, (Raise e). intros st Hreg.
      unfold _get_sparse_indices_matrix. unfold_M. rewrite (Hfill st Hreg).
      erewrite get_feature_offset_registry; [rewrite Hoff; done|].
      by rewrite registry_put_indices.
  - exists ou, oi, (Raise e). intros st Hreg.
    unfold _get_sparse_indices_matrix. unfold_M. by rewrite (Hfill st Hreg).
Qed.

(** A method made of a registry pass, the encoding and a read-only rest
    gives, when called again on the store it left, the same outcome and
    the same store. *)
Lemma rerun_pipeline {B} (c : cls) (mode : string) (built_col sparse_col : list string)
    (k : list (list Z) -> M B) (st : store) :
  (forall mx, readonly (k mx)) ->
  let m := bind (_set_sparse_unique_vals c data built_col)
             (fun _ => bind (_get_sparse_indices_matrix c data sparse_col mode) k) in
  m (m st).1 = m st.
Proof.
  intros Hk m. subst m. unfold bind.
  destruct (set_sparse_unique_vals_frame c built_col) as (ks & r1 & Hset).
  rewrite (Hset st). destruct r1 as [[]|e].
  2:{ simpl. by rewrite Hset, with_vocab_twice. }
  destruct (get_sparse_indices_matrix_frame c mode sparse_col
              (sparse_unique_vals (with_vocab data ks st))) as (ou & oi & r2 & Hmx).
  rewrite (Hmx (with_vocab data ks st) eq_refl).
  assert (forall s, s = put_indices c ou oi (with_vocab data ks st) ->
            _set_sparse_unique_vals c data built_col s = (s, Ok tt)) as Hset2.
  { intros s ->. by rewrite Hset, with_vocab_put_indices, with_vocab_twice. }
  assert (forall s, s = put_indices c ou oi (with_vocab data ks st) ->
            _get_sparse_indices_matrix c data sparse_col mode s = (s, r2)) as Hmx2.
  { intros s ->. rewrite Hmx by apply registry_put_indices.
    by rewrite put_indices_twice. }
  destruct r2 as [mx|e].
  - pose proof (Hk mx (put_indices c ou oi (with_vocab data ks st))) as Hro.
    destruct (k mx (put_indices c ou oi (with_vocab data ks st))) as [s3 r3] eqn:Hk3.
    simpl in Hro. subst s3. simpl.
    rewrite (Hset2 _ eq_refl), (Hmx2 _ eq_refl). exact Hk3.
  - simpl. by rewrite (Hset2 _ eq_refl), (Hmx2 _ eq_refl).
Qed.

End rerun_facts.

Ltac readonly_step :=
  first
    [ apply readonly_ret
    | apply readonly_gets
    | apply readonly_lift
    | apply readonly_bind; [|intros ?] ].

Lemma feat_after_matrix_readonly (mapping : Type)
    (col_name2index :
       list string -> option (list string) -> option (list string) ->
       option (list string) -> string + mapping)
    (item_sparse_col_values : mapping -> string + list Z)
    (construct_unique_item_feat :
       list (list Z) -> option (list (list Z)) -> list Z ->
       string + (list (list Z) * option (list (list Z))))
    (train_data : DataFrame) (sparse_col : list string)
    (dense_col user_col item_col : option (list string)) (neg : bool)
    (mx : list (list Z)) :
  readonly (feat_after_matrix mapping col_name2index item_sparse_col_values
              construct_unique_item_feat train_data sparse_col dense_col user_col
              item_col neg mx).
Proof.
  unfold feat_after_matrix.
  apply readonly_bind; [destruct dense_col; repeat readonly_step|intros ?].
  do 2 (apply readonly_bind; [repeat readonly_step|intros ?]).
  apply readonly_bind; [destruct neg; repeat readonly_step|intros ?].
  repeat readonly_step.
Qed.

(** C8.  A second call of [build_trainset] with the arguments of the first,
    on the class state the first call left, gives what the first call gave:
    the same [TransformedSet] and [DataInfo] (or the same exception), and it
    leaves the class state as the first call left it.  This holds for
    [DatasetPure] and for [DatasetFeat], from any class state. *)
Theorem build_trainset_twice (mapping : Type)
    (col_name2index :
       list string -> option (list string) -> option (list string) ->
       option (list string) -> string + mapping)
    (item_sparse_col_values : mapping -> string + list Z)
    (construct_unique_item_feat :
       list (list Z) -> option (list (list Z)) -> list Z ->
       string + (list (list Z) * option (list (list Z))))
    (train_data : DataFrame) (sparse_col : list string)
    (dense_col user_col item_col : option (list string)) (neg : bool) (st : store) :
  let pure := @DatasetPure_build_trainset mapping train_data sparse_col in
  let feat :=
    DatasetFeat_build_trainset mapping col_name2index item_sparse_col_values
      construct_unique_item_feat train_data sparse_col dense_col user_col item_col neg in
  pure (pure st).1 = pure st /\ feat (feat st).1 = feat st.
Proof.
  intros pure feat. subst pure feat. split.
  - rewrite (pure_build_trainset_unfold mapping train_data sparse_col st).
    destruct (_check_col_names train_data) as [[]|e] eqn:Hcheck.
    + rewrite pure_build_trainset_unfold, Hcheck.
      apply (rerun_pipeline train_data DatasetPure "train" sparse_col [user; item]).
      intros mx. repeat readonly_step.
    + simpl. by rewrite pure_build_trainset_unfold, Hcheck.
  - rewrite (feat_build_trainset_unfold mapping col_name2index item_sparse_col_values
               construct_unique_item_feat train_data sparse_col dense_col user_col
               item_col neg st).
    destruct (_check_col_names train_data) as [[]|e] eqn:Hcheck.
    + rewrite feat_build_trainset_unfold, Hcheck.
      apply (rerun_pipeline train_data DatasetFeat "train" sparse_col sparse_col).
      intros mx. apply feat_after_matrix_readonly.
    + simpl. by rewrite feat_build_trainset_unfold, Hcheck.
Qed.

(** ** What [DatasetPure.build_trainset] hands to [DataInfo] (C9) *)

(** Whatever the table, a call of [DatasetPure.build_trainset] that returns
    has made its [DataInfo] from the Ellipsis object alone, and its
    [TransformedSet] from three arguments. *)
Lemma pure_build_trainset_result (mapping : Type) (train_data : DataFrame)
    (sparse_col : list string) (st st' : store) (ts : TransformedSet)
    (info : DataInfo mapping) :
  DatasetPure_build_trainset train_data sparse_col st = (st', Ok (ts, info)) ->
  info = DataInfo_ellipsis /\
  exists labels,
    ts = TransformedSet3 (get_user_indices DatasetPure st')
           (get_item_indices DatasetPure st') labels.
Proof.
  rewrite pure_build_trainset_unfold.
  destruct (_check_col_names train_data) as [[]|e]; [|done].
  unfold pure_after_checks. unfold_M.
  destruct (_set_sparse_unique_vals DatasetPure train_data sparse_col st) as [s1 [[]|e]];
    [|done].
  destruct (_get_sparse_indices_matrix DatasetPure train_data [user; item] "train" s1)
    as [s2 [mx|e]]; [|done].
  destruct (labels_of train_data) as [labels|e]; [|done].
  intros [= <- <- <-]. split; [done|]. by exists labels.
Qed.

(** The offset table over the two columns that [DatasetPure.build_trainset]
    encodes has three entries. *)
Lemma pure_offset_table_length (st : store) (offsets : list Z) :
  _get_feature_offset DatasetPure [user; item] st = Ok offsets -> length offsets = 3%nat.
Proof.
  intros Hoff. destruct (get_feature_offset_inv _ _ _ _ Hoff) as [Hc Hreg].
  destruct (get_feature_offset_table DatasetPure [user; item] st Hc Hreg)
    as (offsets' & Hoff' & Hlen & _).
  rewrite Hoff in Hoff'. by injection Hoff' as <-.
Qed.

(** C9, at a table with all three required columns.  The call
    [DatasetPure.build_trainset(table1, ["user", "item"])] encodes the two
    columns, and the offset table over them is [0; 3; 5], three entries,
    but the [DataInfo] it returns is [DataInfo(...)]: it is made from the
    Ellipsis object and is given no column at all, where the specification
    has it hold the sparse columns [user] and [item]. *)
Theorem pure_build_trainset_data_info :
  exists st',
    @DatasetPure_build_trainset unit table1 [user; item] fresh_store
    = (st', Ok (TransformedSet3 (Some [0; 1; 2; 1]) (Some [0; 1; 0; 0]) [1; 0; 1; 1],
                DataInfo_ellipsis)) /\
    _get_feature_offset DatasetPure [user; item] st' = Ok [0; 3; 5] /\
    frame_wf table1 /\ ~ missing_required table1.
Proof.
  eexists. split; [vm_compute; reflexivity|].
  split; [vm_compute; reflexivity|].
  split; [unfold frame_wf; compute_done|].
  unfold missing_required. intros [H|[H|H]]; vm_compute in H; discriminate H.
Qed.

(** ** The encoding returns *)

(** On a well-formed frame, in a valid mode, the loop of
    [_get_sparse_indices_matrix] completes as soon as every listed column is
    in the table and in the registry. *)
Lemma fill_columns_runs (c : cls) (data : DataFrame) (mode : string) (m : nat)
    (sparse_col : list string) :
  frame_wf data ->
  mode = "train" \/ mode = "test" ->
  forall (i : nat) (mx : list (list Z)) (st : store),
    has_shape (n_rows data) m mx ->
    (forall col, col ∈ sparse_col ->
       is_Some (columns data !! col) /\ is_Some (sparse_unique_vals st !! col)) ->
    exists st' mx', fill_columns c data mode i sparse_col mx st = (st', Ok mx').
Proof.
  intros Hwf Hmode.
  induction sparse_col as [|col rest IH]; intros i mx st Hshape Hcols.
  - by exists st, mx.
  - rewrite fill_columns_cons.
    destruct (Hcols col ltac:(by left)) as [[vals Hv] [u Hu]].
    unfold get_column, get_unique_vals. rewrite Hv, Hu.
    destruct (sparse_indices_valid_mode vals u mode Hmode) as [idx Hidx].
    rewrite Hidx, assign_column_written.
    destruct Hshape as [Hlen Hrows]. rewrite Hlen.
    rewrite written_column_same.
    2:{ rewrite (sparse_indices_length _ _ _ _ Hidx). by eapply frame_wf_column. }
    apply IH.
    + apply assign_column_shape; [done|].
      rewrite (sparse_indices_length _ _ _ _ Hidx). by eapply frame_wf_column.
    + intros k Hk. rewrite registry_record_indices. apply Hcols. by right.
Qed.

(** So does [_get_sparse_indices_matrix], for the two subclasses. *)
Lemma get_sparse_indices_matrix_runs (c : cls) (data : DataFrame)
    (sparse_col : list string) (mode : string) (st : store) :
  frame_wf data ->
  c <> Dataset ->
  mode = "train" \/ mode = "test" ->
  (forall col, col ∈ sparse_col ->
     is_Some (columns data !! col) /\ is_Some (sparse_unique_vals st !! col)) ->
  exists st' mx, _get_sparse_indices_matrix c data sparse_col mode st = (st', Ok mx).
Proof.
  intros Hwf Hc Hmode Hcols.
  destruct (fill_columns_runs c data mode (length sparse_col) sparse_col Hwf Hmode 0
              (zeros (n_rows data) (length sparse_col)) st (zeros_shape _ _) Hcols)
    as (s1 & raw & Hfill).
  pose proof Hfill as Hfill'.
  apply (fill_columns_ok c data mode (n_rows data) (length sparse_col)) in Hfill'
    as (_ & Hreg & _); [|apply zeros_shape|simpl; lia].
  destruct (get_feature_offset_table c sparse_col s1 Hc) as (offsets & Hoff & _).
  { intros col Hcol. rewrite Hreg. by apply Hcols. }
  exists s1, (add_offsets raw (removelast offsets)).
  unfold _get_sparse_indices_matrix. unfold_M. by rewrite Hfill, Hoff.
Qed.

(** In particular the train-mode encoding of a well-formed table returns
    once its vocabulary was built from that table. *)
Lemma train_encoding_runs (c : cls) (data : DataFrame) (built_col sparse_col : list string)
    (st0 st : store) :
  frame_wf data ->
  c <> Dataset ->
  _set_sparse_unique_vals c data built_col st0 = (st, Ok tt) ->
  sparse_col ⊆ built_col ->
  exists st' mx, _get_sparse_indices_matrix c data sparse_col "train" st = (st', Ok mx).
Proof.
  intros Hwf Hc Hbuilt Hsub.
  apply set_sparse_unique_vals_ok in Hbuilt as (Hcols & Hreg & _).
  apply get_sparse_indices_matrix_runs; [done|done|by left|].
  intros col Hcol. split; [by apply Hcols, Hsub|].
  rewrite Hreg, decide_True by (by apply Hsub).
  destruct (Hcols col) as [vals ->]; [by apply Hsub|]. by eexists.
Qed.

(** * Further properties of the data layer *)

(** ** Both modes on a value the vocabulary holds *)

Lemma sparse_indices_test (values unique : list Z) :
  _sparse_indices values unique "test"
  = Ok (Np.mask_assign (Np.searchsorted unique values) (Np.in1d_invert values unique)
          (Z.of_nat (length unique))).
Proof. reflexivity. Qed.

Lemma lookup_test_indices (values unique : list Z) (i : nat) (v : Z) :
  values !! i = Some v ->
  Np.mask_assign (Np.searchsorted unique values) (Np.in1d_invert values unique)
    (Z.of_nat (length unique)) !! i
  = Some (if bool_decide (v ∈ unique) then Np.searchsorted1 unique v
          else Z.of_nat (length unique)).
Proof.
  intros Hv.
  rewrite (lookup_mask_assign _ _ _ i (Np.searchsorted1 unique v)
             (negb (bool_decide (v ∈ unique)))).
  - by destruct (bool_decide (v ∈ unique)).
  - unfold Np.searchsorted. by rewrite list_lookup_fmap, Hv.
  - by apply lookup_in1d_invert.
Qed.

(** X1.  For an ascending vocabulary and a value it holds, test mode and
    train mode give the same index, the position of the value in the
    vocabulary, and [check_unknown] leaves the mask bit of the value
    clear. *)
Theorem test_encoding_known (values unique : list Z) (i : nat) (v : Z) :
  StronglySorted Z.le unique ->
  values !! i = Some v ->
  v ∈ unique ->
  exists (idx_test idx_train : list Z) (r : nat),
    _sparse_indices values unique "test" = Ok idx_test /\
    _sparse_indices values unique "train" = Ok idx_train /\
    idx_test !! i = Some (Z.of_nat r) /\
    idx_train !! i = Some (Z.of_nat r) /\
    unique !! r = Some v /\
    (check_unknown values unique).2 !! i = Some false.
Proof.
  intros Hs Hv Hin.
  destruct (searchsorted1_member unique v Hs Hin) as (r & Hr & Hur).
  eexists _, _, r. split; [apply sparse_indices_test|].
  split; [apply sparse_indices_train|]. repeat split.
  - rewrite (lookup_test_indices _ _ _ _ Hv), bool_decide_eq_true_2 by done.
    by rewrite Hr.
  - unfold Np.searchsorted. by rewrite list_lookup_fmap, Hv, <- Hr.
  - done.
  - simpl. rewrite (lookup_in1d_invert _ _ _ _ Hv). by rewrite bool_decide_eq_true_2.
Qed.

Lemma test_encoding_known_witness :
  exists (idx_test idx_train : list Z) (r : nat),
    _sparse_indices [5; 2; 7] [1; 2; 3] "test" = Ok idx_test /\
    _sparse_indices [5; 2; 7] [1; 2; 3] "train" = Ok idx_train /\
    idx_test !! 1%nat = Some (Z.of_nat r) /\
    idx_train !! 1%nat = Some (Z.of_nat r) /\
    [1; 2; 3] !! r = Some 2 /\
    (check_unknown [5; 2; 7] [1; 2; 3]).2 !! 1%nat = Some false.
Proof.
  apply (test_encoding_known [5; 2; 7] [1; 2; 3] 1 2).
  - repeat constructor; lia.
  - reflexivity.
  - compute_done.
Defined.

(** ** Train mode keeps the order of the values *)

(** X2.  Train-mode encoding against the vocabulary built from the same
    column keeps order and equality: of two rows, one has the smaller index
    exactly when it has the smaller value, and the same index exactly when
    it has the same value. *)
Theorem train_encoding_order (vals idx : list Z) (i j : nat) (vi vj xi xj : Z) :
  _sparse_indices vals (Np.unique vals) "train" = Ok idx ->
  vals !! i = Some vi -> vals !! j = Some vj ->
  idx !! i = Some xi -> idx !! j = Some xj ->
  (vi < vj <-> xi < xj) /\ (vi = vj <-> xi = xj).
Proof.
  rewrite sparse_indices_train. intros [= <-] Hvi Hvj Hxi Hxj.
  unfold Np.searchsorted in Hxi, Hxj.
  rewrite list_lookup_fmap, Hvi in Hxi. rewrite list_lookup_fmap, Hvj in Hxj.
  injection Hxi as <-. injection Hxj as <-.
  pose proof (unique_strictly_sorted vals) as Hlt.
  pose proof (strictly_sorted_le _ Hlt) as Hle.
  destruct (searchsorted1_member (Np.unique vals) vi Hle) as (ri & -> & Hri).
  { apply elem_of_unique. by eapply list_elem_of_lookup_2. }
  destruct (searchsorted1_member (Np.unique vals) vj Hle) as (rj & -> & Hrj).
  { apply elem_of_unique. by eapply list_elem_of_lookup_2. }
  assert (forall (a b : nat) x y, Np.unique vals !! a = Some x ->
            Np.unique vals !! b = Some y -> (a < b)%nat -> x < y) as Hup.
  { intros a b x y Ha Hb Hab. by eapply (sorted_lookup _ Hlt a b). }
  destruct (lt_eq_lt_dec ri rj) as [[Hlt'|Heq]|Hgt].
  - pose proof (Hup _ _ _ _ Hri Hrj Hlt'). split; split; intros; lia.
  - subst rj. rewrite Hri in Hrj. injection Hrj as <-. split; split; intros; lia.
  - pose proof (Hup _ _ _ _ Hrj Hri Hgt). split; split; intros; lia.
Qed.

Lemma train_encoding_order_witness :
  (1 < 3 <-> 0 < 2) /\ (1 = 3 <-> 0 = 2).
Proof.
  apply (train_encoding_order [1; 2; 3; 2] [0; 1; 2; 1] 0 2 1 3 0 2); reflexivity.
Defined.

(** ** A value outside the vocabulary, in train mode *)

(** X3.  In train mode a value that an ascending vocabulary does not hold
    is given the index of the smallest entry above it, so the two cannot be
    told apart afterwards: the entries before that index are exactly the
    entries below the value, the entry at the index is above the value and
    no entry above the value is smaller, and the encoder gives that entry
    the same index.  A value above every entry is given the vocabulary
    size, one past the last position. *)
Theorem train_unknown_value_aliases (unique : list Z) (v : Z) :
  StronglySorted Z.lt unique ->
  v ∉ unique ->
  exists r : nat,
    _sparse_indices [v] unique "train" = Ok [Z.of_nat r] /\
    (forall x, x ∈ unique -> x < v -> exists k : nat, (k < r)%nat /\ unique !! k = Some x) /\
    (forall (k : nat) x, (k < r)%nat -> unique !! k = Some x -> x < v) /\
    match unique !! r with
    | Some w => v < w /\
                (forall x, x ∈ unique -> v < x -> w <= x) /\
                _sparse_indices [v; w] unique "train" = Ok [Z.of_nat r; Z.of_nat r]
    | None => r = length unique /\ forall x, x ∈ unique -> x < v
    end.
Proof.
  intros Hlt Hnin. pose proof (strictly_sorted_le _ Hlt) as Hle.
  destruct (searchsorted1_spec unique v Hle) as (r & Hr & Hlen & Hbelow & Habove).
  exists r. split; [by rewrite sparse_indices_train; simpl; rewrite Hr|].
  split; [|split; [exact Hbelow|]].
  - intros x Hx Hxv. apply list_elem_of_lookup in Hx as (k & Hk).
    exists k. split; [|done].
    destruct (decide (k < r)%nat); [done|].
    specialize (Habove k x ltac:(lia) Hk). lia.
  - destruct (unique !! r) as [w|] eqn:Hw.
    + assert (v < w) as Hvw.
      { pose proof (Habove r w ltac:(lia) Hw).
        assert (v <> w); [|lia]. intros ->. apply Hnin. by eapply list_elem_of_lookup_2. }
      split; [done|]. split.
      * intros x Hx Hvx. apply list_elem_of_lookup in Hx as (k & Hk).
        assert (r <= k)%nat as Hrk.
        { destruct (decide (r <= k)%nat); [done|].
          specialize (Hbelow k x ltac:(lia) Hk). lia. }
        exact (sorted_lookup_le unique r k w x Hle Hrk Hw Hk).
      * rewrite sparse_indices_train. simpl. rewrite Hr.
        destruct (searchsorted1_member unique w Hle) as (r' & Hr' & Hw').
        { by eapply list_elem_of_lookup_2. }
        rewrite Hr'. assert (r' = r) as ->; [|done].
        destruct (lt_eq_lt_dec r r') as [[Hlt'|Heq]|Hgt]; [|done|].
        -- pose proof (sorted_lookup _ Hlt r r' w w Hlt' Hw Hw'). lia.
        -- pose proof (sorted_lookup _ Hlt r' r w w Hgt Hw' Hw). lia.
    + apply lookup_ge_None in Hw. split; [lia|].
      intros x Hx. apply list_elem_of_lookup in Hx as (k & Hk).
      apply (Hbelow k x); [|done]. apply lookup_lt_Some in Hk. lia.
Qed.

Lemma train_unknown_value_aliases_witness :
  exists r : nat,
    _sparse_indices [15] [10; 20; 30] "train" = Ok [Z.of_nat r] /\
    (forall x, x ∈ [10; 20; 30] -> x < 15 ->
       exists k : nat, (k < r)%nat /\ [10; 20; 30] !! k = Some x) /\
    (forall (k : nat) x, (k < r)%nat -> [10; 20; 30] !! k = Some x -> x < 15) /\
    match [10; 20; 30] !! r with
    | Some w => 15 < w /\
                (forall x, x ∈ [10; 20; 30] -> 15 < x -> w <= x) /\
                _sparse_indices [15; w] [10; 20; 30] "train" = Ok [Z.of_nat r; Z.of_nat r]
    | None => r = length [10; 20; 30] /\ forall x, x ∈ [10; 20; 30] -> x < 15
    end.
Proof.
  apply (train_unknown_value_aliases [10; 20; 30] 15).
  - repeat constructor; lia.
  - compute_done.
Defined.

(** ** Entries of the index matrix, taken apart *)

Lemma searchsorted1_bounds (a : list Z) (key : Z) :
  0 <= Np.searchsorted1 a key <= Z.of_nat (length a).
Proof.
  unfold Np.searchsorted1.
  pose proof (bisect_left_bounds a key (length a) 0 (length a)). lia.
Qed.

(** In either mode a local index is between 0 and the vocabulary size. *)
Lemma sparse_indices_bound (values unique idx : list Z) (mode : string) (y : Z) :
  _sparse_indices values unique mode = Ok idx -> y ∈ idx ->
  0 <= y <= Z.of_nat (length unique).
Proof.
  unfold _sparse_indices.
  destruct (String.eqb mode "test").
  - simpl. intros [= <-] Hy.
    apply list_elem_of_lookup in Hy as (i & Hi).
    unfold Np.mask_assign in Hi.
    apply lookup_zip_with_Some in Hi as (old & m & -> & Hold & _).
    destruct m; [lia|].
    unfold Np.searchsorted in Hold. rewrite list_lookup_fmap in Hold.
    destruct (values !! i) as [v|]; [|done]. injection Hold as <-.
    apply searchsorted1_bounds.
  - destruct (String.eqb mode "train"); [|done].
    intros [= <-] Hy. unfold Np.searchsorted in Hy.
    apply list_elem_of_fmap in Hy as (v & -> & _). apply searchsorted1_bounds.
Qed.

(** An entry of the returned matrix is a local index of its column plus
    the offset of the column, and the next offset is further by the
    vocabulary size, plus the reserved slot if the class has one. *)
Lemma matrix_entry_parts (c : cls) (data : DataFrame) (sparse_col : list string)
    (mode : string) (st st' : store) (mx : list (list Z)) (r : nat) (row : list Z)
    (j : nat) (x : Z) :
  _get_sparse_indices_matrix c data sparse_col mode st = (st', Ok mx) ->
  mx !! r = Some row -> row !! j = Some x ->
  exists (offsets : list Z) (col : string) (vals u idx : list Z) (y off b : Z),
    _get_feature_offset c sparse_col st = Ok offsets /\
    sparse_col !! j = Some col /\
    columns data !! col = Some vals /\
    sparse_unique_vals st !! col = Some u /\
    _sparse_indices vals u mode = Ok idx /\
    y ∈ idx /\ x = y + off /\
    offsets !! j = Some off /\ offsets !! S j = Some b /\
    b - off = Z.of_nat (length u) + (if reserve_unknown_slot c then 1 else 0).
Proof.
  intros Hrun Hr Hx.
  apply get_sparse_indices_matrix_ok in Hrun
    as (offsets & Hoff & [Hrows Hwidth] & _ & Hcols & _).
  destruct (get_feature_offset_inv _ _ _ _ Hoff) as [Hc Hall].
  destruct (get_feature_offset_table c sparse_col st Hc Hall)
    as (offsets' & Hoff' & Hlen & _ & Hsteps).
  rewrite Hoff in Hoff'. injection Hoff' as <-.
  assert (j < length sparse_col)%nat as Hj.
  { rewrite Forall_forall in Hwidth.
    rewrite <- (Hwidth row) by (by eapply list_elem_of_lookup_2).
    by eapply lookup_lt_Some. }
  destruct (lookup_lt_is_Some_2 sparse_col j Hj) as [col Hcol].
  destruct (Hcols j col Hcol) as (vals & u & idx & w & off & Hv & Hu & Hidx & Hw & Ho & Hpos).
  rewrite (Hpos r row Hr) in Hx.
  destruct (w !! r) as [y|] eqn:Hy; [|done]. injection Hx as <-.
  destruct (Hsteps j col Hcol) as (a & b & Ha & Hb & Hab).
  rewrite Ho in Ha. injection Ha as <-.
  unfold vocabulary_size in Hab. rewrite Hu in Hab. simpl in Hab.
  exists offsets, col, vals, u, idx, y, off, b. repeat split; try done.
  eapply written_column_elem; [done|]. by eapply list_elem_of_lookup_2.
Qed.

(** ** [DatasetFeat]: every entry stays in the range of its column *)

(** X4.  Whatever the table, the mode and the vocabularies in the registry,
    every entry that [DatasetFeat._get_sparse_indices_matrix] returns for
    column [j] lies in [[OffsetTable[j], OffsetTable[j+1])]: the slot
    reserved by the plus one takes the index of a value above the
    vocabulary in train mode and of an unknown value in test mode. *)
Theorem feat_entries_within_offsets (data : DataFrame) (sparse_col : list string)
    (mode : string) (st st' : store) (mx : list (list Z)) (r : nat) (row : list Z)
    (j : nat) (x : Z) :
  _get_sparse_indices_matrix DatasetFeat data sparse_col mode st = (st', Ok mx) ->
  mx !! r = Some row -> row !! j = Some x ->
  exists (offsets : list Z) (a b : Z),
    _get_feature_offset DatasetFeat sparse_col st = Ok offsets /\
    offsets !! j = Some a /\ offsets !! S j = Some b /\ a <= x < b.
Proof.
  intros Hrun Hr Hx.
  destruct (matrix_entry_parts _ _ _ _ _ _ _ _ _ _ _ Hrun Hr Hx)
    as (offsets & col & vals & u & idx & y & off & b & Hoff & _ & _ & _ & Hidx & Hy
        & -> & Ho & Hb & Hstep).
  pose proof (sparse_indices_bound _ _ _ _ _ Hidx Hy) as Hbound.
  exists offsets, off, b. simpl in Hstep. repeat split; try done; lia.
Qed.

Lemma feat_entries_within_offsets_witness :
  exists (offsets : list Z) (a b : Z),
    _get_feature_offset DatasetFeat [user; "age"]
      (set_unique_vals "age" [20; 30] (set_unique_vals user [2] fresh_store))
    = Ok offsets /\
    offsets !! 1%nat = Some a /\ offsets !! 2%nat = Some b /\ a <= 4 < b.
Proof.
  apply (feat_entries_within_offsets table1 [user; "age"] "train"
           (set_unique_vals "age" [20; 30] (set_unique_vals user [2] fresh_store))
           (set_user_indices DatasetFeat (Some [0; 0; 1; 0])
              (set_unique_vals "age" [20; 30] (set_unique_vals user [2] fresh_store)))
           [[0; 3]; [0; 2]; [1; 3]; [0; 4]] 3 [0; 4] 1 4).
  - vm_compute. reflexivity.
  - reflexivity.
  - reflexivity.
Defined.

(** ** [DatasetPure]: where an unknown value lands *)

(** X5.  [DatasetPure] reserves no slot: in test mode a value that the
    vocabulary of its column does not hold is written into the matrix as
    [OffsetTable[j+1]], the first index of the next column, or the size of
    the whole index space when the column is the last one. *)
Theorem pure_unknown_value_leaves_range (data : DataFrame) (sparse_col : list string)
    (st st' : store) (mx : list (list Z)) (j : nat) (col : string)
    (vals u : list Z) (r : nat) (v : Z) :
  frame_wf data ->
  _get_sparse_indices_matrix DatasetPure data sparse_col "test" st = (st', Ok mx) ->
  sparse_col !! j = Some col ->
  columns data !! col = Some vals ->
  sparse_unique_vals st !! col = Some u ->
  vals !! r = Some v ->
  v ∉ u ->
  exists (offsets row : list Z) (b : Z),
    _get_feature_offset DatasetPure sparse_col st = Ok offsets /\
    offsets !! S j = Some b /\
    mx !! r = Some row /\ row !! j = Some b.
Proof.
  intros Hwf Hrun Hcol Hvals Hu Hv Hnin.
  pose proof Hrun as Hrun'.
  apply get_sparse_indices_matrix_ok in Hrun'
    as (offsets & Hoff & [Hrows _] & _ & _ & _).
  destruct (get_feature_offset_inv _ _ _ _ Hoff) as [Hc Hall].
  destruct (get_feature_offset_table DatasetPure sparse_col st Hc Hall)
    as (offsets' & Hoff' & _ & _ & Hsteps).
  rewrite Hoff in Hoff'. injection Hoff' as <-.
  destruct (Hsteps j col Hcol) as (a & b & Ha & Hb & Hab).
  unfold vocabulary_size in Hab. rewrite Hu in Hab. simpl in Hab.
  destruct (lookup_lt_is_Some_2 mx r) as [row Hrow].
  { rewrite Hrows, <- (frame_wf_column data col vals Hwf Hvals).
    by eapply lookup_lt_Some. }
  exists offsets, row, b. repeat split; try done.
  rewrite (matrix_column_of DatasetPure data sparse_col "test" st st' mx offsets col
             vals u _ Hwf Hrun Hoff Hvals Hu (sparse_indices_test vals u)
             j a r row Hcol Ha Hrow).
  rewrite (lookup_test_indices _ _ _ _ Hv), bool_decide_eq_false_2 by done.
  simpl. f_equal. lia.
Qed.

Lemma pure_unknown_value_leaves_range_witness :
  exists (offsets row : list Z) (b : Z),
    _get_feature_offset DatasetPure [user; item]
      (set_unique_vals item [10] (set_unique_vals user [1; 2; 3] fresh_store))
    = Ok offsets /\
    offsets !! 2%nat = Some b /\
    [[0; 3]; [1; 4]; [2; 3]; [1; 3]] !! 1%nat = Some row /\ row !! 1%nat = Some b.
Proof.
  apply (pure_unknown_value_leaves_range table1 [user; item]
           (set_unique_vals item [10] (set_unique_vals user [1; 2; 3] fresh_store))
           (set_item_indices DatasetPure (Some [0; 1; 0; 0])
              (set_user_indices DatasetPure (Some [0; 1; 2; 1])
                 (set_unique_vals item [10] (set_unique_vals user [1; 2; 3] fresh_store))))
           [[0; 3]; [1; 4]; [2; 3]; [1; 3]] 1 item [10; 20; 10; 10] [10] 1 20).
  - unfold frame_wf. compute_done.
  - vm_compute. reflexivity.
  - reflexivity.
  - reflexivity.
  - reflexivity.
  - reflexivity.
  - compute_done.
Defined.

(** ** Columns do not share indices *)

(** X6.  In the matrix of a train-mode encoding against the vocabulary built
    from the same table, an entry of an earlier column is smaller than any
    entry of a later column: no two columns share a global index. *)
Theorem columns_do_not_share_indices (c : cls) (data : DataFrame)
    (built_col sparse_col : list string) (st0 st st' : store) (mx : list (list Z))
    (r r' : nat) (row row' : list Z) (i j : nat) (x x' : Z) :
  _set_sparse_unique_vals c data built_col st0 = (st, Ok tt) ->
  sparse_col ⊆ built_col ->
  _get_sparse_indices_matrix c data sparse_col "train" st = (st', Ok mx) ->
  mx !! r = Some row -> mx !! r' = Some row' ->
  (i < j)%nat ->
  row !! i = Some x -> row' !! j = Some x' ->
  x < x'.
Proof.
  intros Hbuilt Hsub Hrun Hr Hr' Hij Hx Hx'.
  apply set_sparse_unique_vals_ok in Hbuilt as (_ & Hreg & _).
  destruct (matrix_entry_parts _ _ _ _ _ _ _ _ _ _ _ Hrun Hr Hx)
    as (offsets & col & vals & u & idx & y & off & b & Hoff & Hcol & Hvals & Hu & Hidx
        & Hy & -> & Ho & Hb & Hstep).
  destruct (matrix_entry_parts _ _ _ _ _ _ _ _ _ _ _ Hrun Hr' Hx')
    as (offsets' & col' & vals' & u' & idx' & y' & off' & b' & Hoff' & _ & _ & _ & Hidx'
        & Hy' & -> & Ho' & _ & _).
  rewrite Hoff in Hoff'. injection Hoff' as <-.
  assert (u = Np.unique vals) as ->.
  { specialize (Hreg col).
    rewrite decide_True in Hreg by (apply Hsub; by eapply list_elem_of_lookup_2).
    rewrite Hvals, Hu in Hreg. by injection Hreg. }
  pose proof (train_local_index_bound _ _ _ Hidx Hy) as Hybound.
  pose proof (sparse_indices_bound _ _ _ _ _ Hidx' Hy') as Hybound'.
  pose proof (get_feature_offset_ascending c sparse_col st offsets (S i) j b off'
                Hoff ltac:(lia) Hb Ho') as Hasc.
  destruct (reserve_unknown_slot c); lia.
Qed.

Lemma columns_do_not_share_indices_witness : 1 < 4.
Proof.
  apply (columns_do_not_share_indices DatasetFeat table1 [user; item; "age"]
           [user; item; "age"] fresh_store
           (set_unique_vals "age" [20; 30; 40]
              (set_unique_vals item [10; 20] (set_unique_vals user [1; 2; 3] fresh_store)))
           (set_item_indices DatasetFeat (Some [0; 1; 0; 0])
              (set_user_indices DatasetFeat (Some [0; 1; 2; 1])
                 (set_unique_vals "age" [20; 30; 40]
                    (set_unique_vals item [10; 20]
                       (set_unique_vals user [1; 2; 3] fresh_store)))))
           [[0; 4; 8]; [1; 5; 7]; [2; 4; 8]; [1; 4; 9]]
           1 0 [1; 5; 7] [0; 4; 8] 0 1 1 4).
  - vm_compute. reflexivity.
  - intros col Hcol. exact Hcol.
  - vm_compute. reflexivity.
  - reflexivity.
  - reflexivity.
  - lia.
  - reflexivity.
  - reflexivity.
Defined.

(** ** From a global index back to the raw value *)

(** X7.  Round trip.  After a train-mode encoding of a well-formed table
    against the vocabulary built from it, every entry of the matrix, less
    the offset of its column, is a position of that column's vocabulary,
    and the vocabulary holds there the raw value of the row. *)
Theorem matrix_round_trip (c : cls) (data : DataFrame)
    (built_col sparse_col : list string) (st0 st st' : store) (mx : list (list Z))
    (r : nat) (row : list Z) (j : nat) (col : string) (x : Z) :
  frame_wf data ->
  _set_sparse_unique_vals c data built_col st0 = (st, Ok tt) ->
  sparse_col ⊆ built_col ->
  _get_sparse_indices_matrix c data sparse_col "train" st = (st', Ok mx) ->
  mx !! r = Some row -> sparse_col !! j = Some col -> row !! j = Some x ->
  exists (offsets vals u : list Z) (off v : Z),
    _get_feature_offset c sparse_col st = Ok offsets /\
    offsets !! j = Some off /\
    columns data !! col = Some vals /\ vals !! r = Some v /\
    sparse_unique_vals st !! col = Some u /\
    0 <= x - off /\ u !! Z.to_nat (x - off) = Some v.
Proof.
  intros Hwf Hbuilt Hsub Hrun Hr Hcol Hx.
  apply set_sparse_unique_vals_ok in Hbuilt as (Hcols & Hreg & _).
  assert (col ∈ built_col) as Hin by (apply Hsub; by eapply list_elem_of_lookup_2).
  destruct (Hcols col Hin) as [vals Hvals].
  specialize (Hreg col). rewrite decide_True, Hvals in Hreg by done. simpl in Hreg.
  pose proof Hrun as Hrun'.
  apply get_sparse_indices_matrix_ok in Hrun'
    as (offsets & Hoff & [Hrows _] & _ & _ & _).
  destruct (lookup_lt_is_Some_2 offsets j) as [off Ho].
  { destruct (get_feature_offset_inv _ _ _ _ Hoff) as [Hc Hall].
    destruct (get_feature_offset_table c sparse_col st Hc Hall)
      as (offsets' & Hoff' & Hlen & _).
    rewrite Hoff in Hoff'. injection Hoff' as <-.
    apply lookup_lt_Some in Hcol. lia. }
  destruct (lookup_lt_is_Some_2 vals r) as [v Hv].
  { rewrite (frame_wf_column data col vals Hwf Hvals), <- Hrows.
    by eapply lookup_lt_Some. }
  rewrite (matrix_column_of c data sparse_col "train" st st' mx offsets col
             vals (Np.unique vals) _ Hwf Hrun Hoff Hvals Hreg
             (sparse_indices_train vals (Np.unique vals)) j off r row Hcol Ho Hr) in Hx.
  unfold Np.searchsorted in Hx. rewrite list_lookup_fmap, Hv in Hx. simpl in Hx.
  injection Hx as <-.
  destruct (searchsorted1_member (Np.unique vals) v) as (k & Hk & Huk).
  { apply strictly_sorted_le, unique_strictly_sorted. }
  { apply elem_of_unique. by eapply list_elem_of_lookup_2. }
  exists offsets, vals, (Np.unique vals), off, v.
  repeat split; try done.
  - rewrite Hk. lia.
  - rewrite Hk. replace (Z.of_nat k + off - off) with (Z.of_nat k) by lia.
    by rewrite Nat2Z.id.
Qed.

Lemma matrix_round_trip_witness :
  exists (offsets vals u : list Z) (off v : Z),
    _get_feature_offset DatasetFeat [user; item; "age"]
      (set_unique_vals "age" [20; 30; 40]
         (set_unique_vals item [10; 20] (set_unique_vals user [1; 2; 3] fresh_store)))
    = Ok offsets /\
    offsets !! 2%nat = Some off /\
    columns table1 !! "age" = Some vals /\ vals !! 3%nat = Some v /\
    sparse_unique_vals
      (set_unique_vals "age" [20; 30; 40]
         (set_unique_vals item [10; 20] (set_unique_vals user [1; 2; 3] fresh_store)))
      !! "age" = Some u /\
    0 <= 9 - off /\ u !! Z.to_nat (9 - off) = Some v.
Proof.
  apply (matrix_round_trip DatasetFeat table1 [user; item; "age"]
           [user; item; "age"] fresh_store
           (set_unique_vals "age" [20; 30; 40]
              (set_unique_vals item [10; 20] (set_unique_vals user [1; 2; 3] fresh_store)))
           (set_item_indices DatasetFeat (Some [0; 1; 0; 0])
              (set_user_indices DatasetFeat (Some [0; 1; 2; 1])
                 (set_unique_vals "age" [20; 30; 40]
                    (set_unique_vals item [10; 20]
                       (set_unique_vals user [1; 2; 3] fresh_store)))))
           [[0; 4; 8]; [1; 5; 7]; [2; 4; 8]; [1; 4; 9]] 3 [1; 4; 9] 2 "age" 9).
  - unfold frame_wf. compute_done.
  - vm_compute. reflexivity.
  - intros col Hcol. exact Hcol.
  - vm_compute. reflexivity.
  - reflexivity.
  - reflexivity.
  - reflexivity.
Defined.

(** ** The registry pass on a table that lacks a listed column *)

(** X8.  When a listed column is not in the table, [_set_sparse_unique_vals]
    raises the [KeyError] of the first such column, after it has entered
    the vocabularies of the columns listed before it: those entries stay in
    the shared registry, every other entry is as it was, and the index
    attributes are untouched. *)
Theorem set_sparse_unique_vals_missing_column (c : cls) (data : DataFrame)
    (before : list string) (col : string) (after : list string) (st : store) :
  (forall k, k ∈ before -> is_Some (columns data !! k)) ->
  columns data !! col = None ->
  exists st',
    _set_sparse_unique_vals c data (before ++ col :: after) st = (st', Raise (KeyError col)) /\
    (forall k, sparse_unique_vals st' !! k =
               if decide (k ∈ before) then Np.unique <$> (columns data !! k)
               else sparse_unique_vals st !! k) /\
    (forall k, get_user_indices k st' = get_user_indices k st) /\
    (forall k, get_item_indices k st' = get_item_indices k st).
Proof.
  revert st. induction before as [|b before IH]; intros st Hbefore Hcol.
  - exists st. cbn [app _set_sparse_unique_vals]. unfold_M. unfold get_column.
    rewrite Hcol. split; [done|]. split; [|done]. intros k.
    rewrite decide_False; [done|apply not_elem_of_nil].
  - destruct (Hbefore b ltac:(by left)) as [vals Hvals].
    destruct (IH (set_unique_vals b (Np.unique vals) st)) as (st' & Hrun & Hreg & Hu & Hi).
    { intros k Hk. apply Hbefore. by right. }
    { done. }
    exists st'. split; [|split; [|split]].
    + cbn [app _set_sparse_unique_vals]. unfold_M. unfold get_column.
      rewrite Hvals. exact Hrun.
    + intros k. rewrite Hreg. cbn [set_unique_vals sparse_unique_vals].
      destruct (decide (k ∈ before)) as [Hin|Hnin].
      * rewrite decide_True by (by right). done.
      * destruct (decide (k = b)) as [->|Hne].
        -- rewrite decide_True by (by left). by rewrite lookup_insert_eq, Hvals.
        -- rewrite decide_False by (rewrite elem_of_cons; tauto).
           by rewrite lookup_insert_ne.
    + intros k. rewrite Hu. by destruct k.
    + intros k. rewrite Hi. by destruct k.
Qed.

Lemma set_sparse_unique_vals_missing_column_witness :
  exists st',
    _set_sparse_unique_vals DatasetFeat table1 ([user] ++ "city" :: [item]) fresh_store
    = (st', Raise (KeyError "city")) /\
    (forall k, sparse_unique_vals st' !! k =
               if decide (k ∈ [user]) then Np.unique <$> (columns table1 !! k)
               else sparse_unique_vals fresh_store !! k) /\
    (forall k, get_user_indices k st' = get_user_indices k fresh_store) /\
    (forall k, get_item_indices k st' = get_item_indices k fresh_store).
Proof.
  apply (set_sparse_unique_vals_missing_column DatasetFeat table1 [user] "city" [item]).
  - intros k Hk. apply elem_of_cons in Hk as [->|Hk]; [by eexists|].
    by apply elem_of_nil in Hk.
  - reflexivity.
Defined.

(** ** What the encoding writes, and what it leaves alone *)

(** X9.  [_get_sparse_indices_matrix] never changes the vocabulary registry,
    in either mode and whether it returns or raises; and called on a
    subclass it never changes what another class reads as [user_indices]
    or [item_indices]. *)
Theorem encoding_leaves_registry (c : cls) (data : DataFrame) (sparse_col : list string)
    (mode : string) (st : store) :
  let st' := (_get_sparse_indices_matrix c data sparse_col mode st).1 in
  sparse_unique_vals st' = sparse_unique_vals st /\
  (c <> Dataset ->
   forall k, k <> c ->
     get_user_indices k st' = get_user_indices k st /\
     get_item_indices k st' = get_item_indices k st).
Proof.
  intros st'. subst st'.
  destruct (get_sparse_indices_matrix_frame data c mode sparse_col (sparse_unique_vals st))
    as (ou & oi & r & Hrun).
  rewrite (Hrun st eq_refl). simpl. split; [apply registry_put_indices|].
  intros Hc k Hk.
  destruct c; [done|..]; destruct k; try done; by destruct ou, oi.
Qed.

(** ** The size of the index space *)

Lemma last_cumsum_from (ar : list Z) : forall acc,
  last (acc :: Np.cumsum_from acc ar) = Some (acc + foldr Z.add 0 ar).
Proof.
  induction ar as [|x ar IH]; intros acc.
  - simpl. f_equal. lia.
  - cbn [Np.cumsum_from]. rewrite last_cons_cons, IH. simpl. f_equal. lia.
Qed.

Lemma sum_map_plus_const (f : string -> Z) (k : Z) (l : list string) :
  foldr Z.add 0 (map (fun x => f x + k) l)
  = foldr Z.add 0 (map f l) + k * Z.of_nat (length l).
Proof. induction l as [|x l IH]; simpl; [lia|]. rewrite IH. lia. Qed.

(** X10.  The last entry of the offset table, the number of rows an
    embedding table over the sparse columns needs, is the sum of the
    vocabulary sizes of the listed columns, plus the number of columns for
    [DatasetFeat], which reserves one slot in each. *)
Theorem feature_offset_total (c : cls) (sparse_col : list string) (st : store) :
  c <> Dataset ->
  (forall col, col ∈ sparse_col -> is_Some (sparse_unique_vals st !! col)) ->
  exists offsets : list Z,
    _get_feature_offset c sparse_col st = Ok offsets /\
    last offsets
    = Some (foldr Z.add 0 (map (vocabulary_size st) sparse_col)
            + (if reserve_unknown_slot c then Z.of_nat (length sparse_col) else 0)).
Proof.
  intros Hc Hreg.
  rewrite get_feature_offset_unfold by done.
  rewrite unique_value_counts_ok by done. cbn [result_bind].
  eexists. split; [reflexivity|].
  rewrite cumsum_leading_zero, last_cumsum_from, sum_map_plus_const.
  f_equal. destruct (reserve_unknown_slot c); lia.
Qed.

Lemma feature_offset_total_witness :
  exists offsets : list Z,
    _get_feature_offset DatasetFeat [user; item]
      (set_unique_vals item [10; 20] (set_unique_vals user [1; 2; 3] fresh_store))
    = Ok offsets /\
    last offsets
    = Some (foldr Z.add 0
              (map (vocabulary_size
                      (set_unique_vals item [10; 20]
                         (set_unique_vals user [1; 2; 3] fresh_store))) [user; item])
            + (if reserve_unknown_slot DatasetFeat
               then Z.of_nat (length [user; item]) else 0)).
Proof.
  apply (feature_offset_total DatasetFeat [user; item]).
  - discriminate.
  - intros col Hcol.
    apply elem_of_cons in Hcol as [->|Hcol]; [by eexists|].
    apply elem_of_cons in Hcol as [->|Hcol]; [by eexists|].
    by apply elem_of_nil in Hcol.
Defined.

Lemma cumsum_from_increasing (ar : list Z) : forall (acc : Z) (i j : nat) (a b : Z),
  Forall (fun x => 0 < x) ar -> (i < j)%nat ->
  (acc :: Np.cumsum_from acc ar) !! i = Some a ->
  (acc :: Np.cumsum_from acc ar) !! j = Some b ->
  a < b.
Proof.
  induction ar as [|y ar IH]; intros acc i j a b Hall Hij Ha Hb.
  - destruct j as [|j]; [lia|done].
  - apply Forall_cons in Hall as [Hy Hall].
    destruct j as [|j]; [lia|].
    destruct i as [|i].
    + simpl in Ha. injection Ha as <-.
      assert (acc + y <= b); [|lia].
      eapply (cumsum_from_ascending ar (acc + y) 0%nat j); [|lia|done|done].
      eapply Forall_impl; [exact Hall|]. simpl. intros; lia.
    + eapply (IH (acc + y) i j); [done|lia|done|done].
Qed.

(** X11.  The offset table of [DatasetFeat] is strictly increasing, whatever
    the vocabularies: every sparse column owns at least one index, the
    reserved one, even when the table it was built from has no row. *)
Theorem feat_offsets_increase (sparse_col : list string) (st : store)
    (offsets : list Z) (i j : nat) (a b : Z) :
  _get_feature_offset DatasetFeat sparse_col st = Ok offsets ->
  (i < j)%nat -> offsets !! i = Some a -> offsets !! j = Some b ->
  a < b.
Proof.
  intros Hoff Hij Ha Hb.
  destruct (get_feature_offset_inv _ _ _ _ Hoff) as [Hc Hreg].
  rewrite get_feature_offset_unfold in Hoff by done.
  rewrite unique_value_counts_ok in Hoff by done. cbn [result_bind] in Hoff.
  injection Hoff as <-. rewrite cumsum_leading_zero in Ha, Hb.
  eapply (cumsum_from_increasing _ 0 i j); [|done..].
  apply Forall_forall. intros x Hx. apply list_elem_of_fmap in Hx as (col & -> & _).
  unfold vocabulary_size. simpl. lia.
Qed.

Lemma feat_offsets_increase_witness : 1 < 2.
Proof.
  apply (feat_offsets_increase [user; item]
           (set_unique_vals item [] (set_unique_vals user [] fresh_store))
           [0; 1; 2] 1 2 1 2).
  - vm_compute. reflexivity.
  - lia.
  - reflexivity.
  - reflexivity.
Defined.

(** ** Where the mode is checked *)

(** X12.  [_get_sparse_indices_matrix] hands the mode to [_sparse_indices]
    and does not look at it itself.  With a mode that is neither [train]
    nor [test], a subclass call with no column to encode returns, a matrix
    of empty rows, one per row of the table; with a first column that the
    table and the registry hold it raises the invalid-mode error before
    anything is assigned. *)
Theorem invalid_mode_in_matrix (c : cls) (data : DataFrame) (mode : string) (st : store) :
  mode <> "train" -> mode <> "test" ->
  (c <> Dataset ->
   _get_sparse_indices_matrix c data [] mode st = (st, Ok (replicate (n_rows data) []))) /\
  (forall col rest,
     is_Some (columns data !! col) -> is_Some (sparse_unique_vals st !! col) ->
     _get_sparse_indices_matrix c data (col :: rest) mode st = (st, Raise ValueError_mode)).
Proof.
  intros Htrain Htest. split.
  - intros Hc. unfold _get_sparse_indices_matrix. unfold_M. cbn [fill_columns].
    unfold_M. rewrite get_feature_offset_unfold by done. simpl.
    unfold add_offsets, zeros. simpl. f_equal. f_equal.
    induction (n_rows data) as [|n IH]; simpl; [done|]. by rewrite IH.
  - intros col rest [vals Hvals] [u Hu].
    unfold _get_sparse_indices_matrix. unfold_M.
    rewrite fill_columns_cons. unfold get_column, get_unique_vals.
    rewrite Hvals, Hu. unfold _sparse_indices.
    destruct (String.eqb_spec mode "test"); [done|].
    destruct (String.eqb_spec mode "train"); done.
Qed.

Lemma invalid_mode_in_matrix_witness :
  (DatasetFeat <> Dataset ->
   _get_sparse_indices_matrix DatasetFeat table1 [] "valid"
     (set_unique_vals user [1; 2; 3] fresh_store)
   = (set_unique_vals user [1; 2; 3] fresh_store, Ok (replicate (n_rows table1) []))) /\
  (forall col rest,
     is_Some (columns table1 !! col) ->
     is_Some (sparse_unique_vals (set_unique_vals user [1; 2; 3] fresh_store) !! col) ->
     _get_sparse_indices_matrix DatasetFeat table1 (col :: rest) "valid"
       (set_unique_vals user [1; 2; 3] fresh_store)
     = (set_unique_vals user [1; 2; 3] fresh_store, Raise ValueError_mode)).
Proof.
  apply (invalid_mode_in_matrix DatasetFeat table1 "valid"); discriminate.
Defined.

(** ** The base class *)

(** X13.  [_check_subclass] lets the base class through, and on the base
    class [_get_sparse_indices_matrix] never returns a matrix: whatever
    the table, the columns and the mode, the call ends in an exception, at
    the latest in [_get_feature_offset], whose two branches are for the
    subclasses. *)
Theorem base_class_never_encodes (data : DataFrame) (sparse_col : list string)
    (mode : string) (st : store) :
  _check_subclass Dataset = Ok tt /\
  exists e, (_get_sparse_indices_matrix Dataset data sparse_col mode st).2 = Raise e.
Proof.
  split; [reflexivity|].
  unfold _get_sparse_indices_matrix. unfold_M.
  destruct (fill_columns Dataset data mode 0 sparse_col _ st) as [s1 [raw|e]].
  - rewrite get_feature_offset_base. by eexists.
  - by eexists.
Qed.

(** ** What [build_trainset] hands to [TransformedSet] *)

Section build_trainset_results.

Variable mapping : Type.
Variable col_name2index :
  list string -> option (list string) -> option (list string) -> option (list string) ->
  string + mapping.
Variable item_sparse_col_values : mapping -> string + list Z.
Variable construct_unique_item_feat :
  list (list Z) -> option (list (list Z)) -> list Z ->
  string + (list (list Z) * option (list (list Z))).

Local Abbreviation feat_build_trainset :=
  (DatasetFeat_build_trainset mapping col_name2index item_sparse_col_values
     construct_unique_item_feat).

(** The steps behind a call of [DatasetFeat.build_trainset] that returns. *)
Lemma feat_build_trainset_inv (train_data : DataFrame) (sparse_col : list string)
    (dense_col user_col item_col : option (list string)) (neg : bool)
    (st st' : store) (ts : TransformedSet) (info : DataInfo mapping) :
  feat_build_trainset train_data sparse_col dense_col user_col item_col neg st
  = (st', Ok (ts, info)) ->
  exists s1 mx dense labels cmap inter isu idu,
    ~ missing_required train_data /\
    _set_sparse_unique_vals DatasetFeat train_data sparse_col st = (s1, Ok tt) /\
    _get_sparse_indices_matrix DatasetFeat train_data sparse_col "train" s1 = (st', Ok mx) /\
    match dense_col with
    | Some names => exists d, get_columns train_data names = Ok d /\ dense = Some d
    | None => dense = None
    end /\
    (exists label_vals, columns train_data !! label = Some label_vals /\
                        labels = map float32_of_int label_vals) /\
    col_name2index sparse_col dense_col user_col item_col = inr cmap /\
    select_columns train_data [user; item; label] = Ok inter /\
    (neg = false -> isu = None /\ idu = None) /\
    ts = TransformedSet5 (get_user_indices DatasetFeat st')
           (get_item_indices DatasetFeat st') labels mx dense /\
    info = DataInfo4 cmap inter isu idu.
Proof.
  rewrite feat_build_trainset_unfold.
  destruct (check_col_names_spec train_data) as [[_ ->]|[Hreq ->]]; [done|].
  unfold feat_after_checks, feat_after_matrix, labels_of, get_column. unfold_M.
  destruct (_set_sparse_unique_vals DatasetFeat train_data sparse_col st)
    as [s1 [[]|e]] eqn:Hset; [|done].
  destruct (_get_sparse_indices_matrix DatasetFeat train_data sparse_col "train" s1)
    as [s2 [mx|e]] eqn:Hmx; [|done].
  intros Hrun.
  destruct dense_col as [names|].
  1: destruct (get_columns train_data names) as [d|e] eqn:Hd; [|done].
  all: destruct (columns train_data !! label) as [label_vals|] eqn:Hlabel; [|done].
  all: cbn [result_bind] in Hrun.
  all: destruct (col_name2index sparse_col _ user_col item_col) as [what|cmap];
    [done|].
  all: simpl in Hrun.
  all: destruct neg.
  all: try (destruct (item_sparse_col_values cmap) as [what|ids]; [done|];
            simpl in Hrun;
            destruct (construct_unique_item_feat mx _ ids) as [what|[isu idu]]; [done|];
            simpl in Hrun).
  all: destruct (select_columns train_data [user; item; label]) as [inter|e]; [|done].
  all: injection Hrun as <- <- <-.
  all: first [ eexists s1, mx, _, (map float32_of_int label_vals), cmap, inter,
                 (Some isu), idu
             | eexists s1, mx, _, (map float32_of_int label_vals), cmap, inter,
                 None, None ].
  all: repeat split; try done; try reflexivity.
  all: by eexists.
Qed.

(** X14.  The user and item vectors that [DatasetFeat.build_trainset] puts
    in the [TransformedSet] are the class attributes as they are after the
    encoding.  For a column listed in [sparse_col] that is the train-mode
    encoding of the column; when [user] (or [item]) is not listed, the
    attribute is never assigned and the vector handed over is the value the
    attribute had before the call: [None] on freshly imported classes, the
    vector of an earlier call otherwise. *)
Theorem feat_build_trainset_vectors (train_data : DataFrame) (sparse_col : list string)
    (dense_col user_col item_col : option (list string)) (neg : bool)
    (st st' : store) (ts : TransformedSet) (info : DataInfo mapping) :
  feat_build_trainset train_data sparse_col dense_col user_col item_col neg st
  = (st', Ok (ts, info)) ->
  exists u i labels mx dense,
    ts = TransformedSet5 u i labels mx dense /\
    (user ∉ sparse_col -> u = get_user_indices DatasetFeat st) /\
    (item ∉ sparse_col -> i = get_item_indices DatasetFeat st) /\
    (user ∈ sparse_col ->
       exists vals, columns train_data !! user = Some vals /\
                    u = Some (Np.searchsorted (Np.unique vals) vals)) /\
    (item ∈ sparse_col ->
       exists vals, columns train_data !! item = Some vals /\
                    i = Some (Np.searchsorted (Np.unique vals) vals)).
Proof.
  intros Hrun.
  apply feat_build_trainset_inv in Hrun
    as (s1 & mx & dense & labels & cmap & inter & isu & idu & _ & Hset & Hmx & _ & _ & _
        & _ & _ & -> & _).
  apply set_sparse_unique_vals_ok in Hset as (_ & Hreg & Hu1 & Hi1).
  apply get_sparse_indices_matrix_ok in Hmx as (_ & _ & _ & _ & _ & Hattr).
  destruct (Hattr user ltac:(by left)) as [Huin Hunin].
  destruct (Hattr item ltac:(by right)) as [Hiin Hinin].
  rewrite decide_True in Huin, Hunin by done.
  rewrite decide_False in Hiin, Hinin by done.
  eexists _, _, labels, mx, dense. split; [reflexivity|]. repeat split.
  - intros Hn. by rewrite (Hunin Hn), Hu1.
  - intros Hn. by rewrite (Hinin Hn), Hi1.
  - intros Hin. destruct (Huin Hin) as (vals & u & idx & Hv & Hu & Hidx & ->).
    exists vals. split; [done|].
    rewrite Hreg, decide_True, Hv in Hu by done. injection Hu as <-.
    rewrite sparse_indices_train in Hidx. by injection Hidx as <-.
  - intros Hin. destruct (Hiin Hin) as (vals & u & idx & Hv & Hu & Hidx & ->).
    exists vals. split; [done|].
    rewrite Hreg, decide_True, Hv in Hu by done. injection Hu as <-.
    rewrite sparse_indices_train in Hidx. by injection Hidx as <-.
Qed.

End build_trainset_results.

Lemma feat_build_trainset_vectors_witness :
  exists u i labels mx dense,
    TransformedSet5 None None [1; 0; 1; 1] [[1]; [0]; [1]; [2]] None
    = TransformedSet5 u i labels mx dense /\
    (user ∉ ["age"] -> u = get_user_indices DatasetFeat fresh_store) /\
    (item ∉ ["age"] -> i = get_item_indices DatasetFeat fresh_store) /\
    (user ∈ ["age"] ->
       exists vals, columns table1 !! user = Some vals /\
                    u = Some (Np.searchsorted (Np.unique vals) vals)) /\
    (item ∈ ["age"] ->
       exists vals, columns table1 !! item = Some vals /\
                    i = Some (Np.searchsorted (Np.unique vals) vals)).
Proof.
  eapply (feat_build_trainset_vectors unit (fun _ _ _ _ => inr tt) (fun _ => inr [])
            (fun m d _ => inr (m, d)) table1 ["age"] None None None false fresh_store).
  vm_compute. reflexivity.
Defined.

(** ** When [build_trainset] returns *)

Lemma no_missing_column (data : DataFrame) (names : list string) :
  (forall k, k ∈ names -> is_Some (columns data !! k)) ->
  filter (fun k => columns data !! k = None) names = [].
Proof.
  intros Hall. induction names as [|k names IH]; [done|].
  destruct (Hall k ltac:(by left)) as [vals Hk].
  rewrite filter_cons_False by (by rewrite Hk).
  apply IH. intros k' Hk'. apply Hall. by right.
Qed.

Lemma required_columns_present (data : DataFrame) :
  ~ missing_required data ->
  forall k, k ∈ [user; item; label] -> is_Some (columns data !! k).
Proof.
  intros Hreq k Hk. unfold missing_required in Hreq.
  destruct (columns data !! k) as [vals|] eqn:Hcol; [by eexists|].
  exfalso. apply Hreq.
  apply elem_of_cons in Hk as [->|Hk]; [tauto|].
  apply elem_of_cons in Hk as [->|Hk]; [tauto|].
  apply elem_of_cons in Hk as [->|Hk]; [tauto|].
  by apply elem_of_nil in Hk.
Qed.

Section build_trainset_returns.

Variable mapping : Type.
Variable col_name2index :
  list string -> option (list string) -> option (list string) -> option (list string) ->
  string + mapping.
Variable item_sparse_col_values : mapping -> string + list Z.
Variable construct_unique_item_feat :
  list (list Z) -> option (list (list Z)) -> list Z ->
  string + (list (list Z) * option (list (list Z))).

(** X15.  [DatasetPure.build_trainset] enters the vocabularies of the
    columns in its [sparse_col] argument but always encodes [user] and
    [item].  On a table that has every required and every listed column,
    if [sparse_col] does not list [user] and the shared registry holds no
    [user] entry from an earlier call, the call ends in the [KeyError] of
    the registry lookup, after the listed vocabularies were entered. *)
Theorem pure_build_trainset_unlisted_user (train_data : DataFrame)
    (sparse_col : list string) (st : store) :
  ~ missing_required train_data ->
  (forall col, col ∈ sparse_col -> is_Some (columns train_data !! col)) ->
  user ∉ sparse_col ->
  sparse_unique_vals st !! user = None ->
  exists st',
    @DatasetPure_build_trainset mapping train_data sparse_col st
    = (st', Raise (KeyError user)) /\
    forall k, sparse_unique_vals st' !! k =
              if decide (k ∈ sparse_col) then Np.unique <$> (columns train_data !! k)
              else sparse_unique_vals st !! k.
Proof.
  intros Hreq Hcols Huser Hnone.
  rewrite pure_build_trainset_unfold.
  destruct (check_col_names_spec train_data) as [[Hmiss _]|[_ ->]]; [done|].
  destruct (set_sparse_unique_vals_runs DatasetPure train_data sparse_col Hcols st)
    as [s1 Hset].
  pose proof (set_sparse_unique_vals_ok _ _ _ _ _ Hset) as (_ & Hreg & _).
  exists s1. split; [|done].
  unfold pure_after_checks, _get_sparse_indices_matrix. unfold_M. rewrite Hset.
  rewrite fill_columns_cons.
  destruct (required_columns_present train_data Hreq user ltac:(by left)) as [vals Hv].
  unfold get_column, get_unique_vals.
  by rewrite Hv, Hreg, decide_False, Hnone.
Qed.

(** X16.  On a well-formed table that has the required columns,
    [DatasetPure.build_trainset] returns whenever [sparse_col] lists [user]
    and [item] and only columns of the table.  The [TransformedSet] it
    makes holds the train-mode encodings of the two columns against their
    own sorted distinct values, without offsets, and the label column with
    every cell cast to [float32]. *)
Theorem pure_build_trainset_returns (train_data : DataFrame)
    (sparse_col : list string) (st : store) :
  frame_wf train_data ->
  ~ missing_required train_data ->
  (forall col, col ∈ sparse_col -> is_Some (columns train_data !! col)) ->
  user ∈ sparse_col ->
  item ∈ sparse_col ->
  exists st' user_vals item_vals labels,
    columns train_data !! user = Some user_vals /\
    columns train_data !! item = Some item_vals /\
    columns train_data !! label = Some labels /\
    @DatasetPure_build_trainset mapping train_data sparse_col st
    = (st', Ok (TransformedSet3
                  (Some (Np.searchsorted (Np.unique user_vals) user_vals))
                  (Some (Np.searchsorted (Np.unique item_vals) item_vals))
                  (map float32_of_int labels),
                DataInfo_ellipsis)).
Proof.
  intros Hwf Hreq Hcols Huser Hitem.
  rewrite pure_build_trainset_unfold.
  destruct (check_col_names_spec train_data) as [[Hmiss _]|[_ ->]]; [done|].
  destruct (set_sparse_unique_vals_runs DatasetPure train_data sparse_col Hcols st)
    as [s1 Hset].
  destruct (train_encoding_runs DatasetPure train_data sparse_col [user; item] st s1
              Hwf ltac:(done) Hset) as (s2 & mx & Hmx).
  { intros k Hk. apply elem_of_cons in Hk as [->|Hk]; [done|].
    apply elem_of_cons in Hk as [->|Hk]; [done|]. by apply elem_of_nil in Hk. }
  pose proof (set_sparse_unique_vals_ok _ _ _ _ _ Hset) as (_ & Hreg & _).
  pose proof (get_sparse_indices_matrix_ok _ _ _ _ _ _ _ Hmx) as (_ & _ & _ & _ & _ & Hattr).
  destruct (Hattr user ltac:(by left)) as [Hu _].
  destruct (Hu ltac:(by left)) as (uvals & uvoc & uidx & Huv & Huu & Hui & Hug).
  destruct (Hattr item ltac:(by right)) as [Hi _].
  destruct (Hi ltac:(by right; left)) as (ivals & ivoc & iidx & Hiv & Hiu & Hii & Hig).
  rewrite decide_True in Hug by done. rewrite decide_False in Hig by done.
  rewrite Hreg, decide_True, Huv in Huu by done. injection Huu as <-.
  rewrite Hreg, decide_True, Hiv in Hiu by done. injection Hiu as <-.
  rewrite sparse_indices_train in Hui, Hii. injection Hui as <-. injection Hii as <-.
  destruct (required_columns_present train_data Hreq label ltac:(by right; right; left))
    as [labels Hl].
  exists s2, uvals, ivals, labels. repeat split; try done.
  unfold pure_after_checks, labels_of, get_column. unfold_M.
  rewrite Hset, Hmx, Hl. cbn [result_bind]. by rewrite Hug, Hig.
Qed.

End build_trainset_returns.

Lemma pure_build_trainset_unlisted_user_witness :
  exists st',
    @DatasetPure_build_trainset unit table1 [item] fresh_store
    = (st', Raise (KeyError user)) /\
    forall k, sparse_unique_vals st' !! k =
              if decide (k ∈ [item]) then Np.unique <$> (columns table1 !! k)
              else sparse_unique_vals fresh_store !! k.
Proof.
  apply (pure_build_trainset_unlisted_user unit table1 [item] fresh_store).
  - unfold missing_required. intros [H|[H|H]]; vm_compute in H; discriminate H.
  - intros col Hcol. apply elem_of_cons in Hcol as [->|Hcol]; [by eexists|].
    by apply elem_of_nil in Hcol.
  - compute_done.
  - reflexivity.
Defined.

Lemma pure_build_trainset_returns_witness :
  exists st' user_vals item_vals labels,
    columns table1 !! user = Some user_vals /\
    columns table1 !! item = Some item_vals /\
    columns table1 !! label = Some labels /\
    @DatasetPure_build_trainset unit table1 [user; item] fresh_store
    = (st', Ok (TransformedSet3
                  (Some (Np.searchsorted (Np.unique user_vals) user_vals))
                  (Some (Np.searchsorted (Np.unique item_vals) item_vals))
                  (map float32_of_int labels),
                DataInfo_ellipsis)).
Proof.
  apply (pure_build_trainset_returns unit table1 [user; item] fresh_store).
  - unfold frame_wf. compute_done.
  - unfold missing_required. intros [H|[H|H]]; vm_compute in H; discriminate H.
  - intros col Hcol. apply elem_of_cons in Hcol as [->|Hcol]; [by eexists|].
    apply elem_of_cons in Hcol as [->|Hcol]; [by eexists|].
    by apply elem_of_nil in Hcol.
  - compute_done.
  - compute_done.
Defined.

Section feat_build_trainset_returns.

Variable mapping : Type.
Variable col_name2index :
  list string -> option (list string) -> option (list string) -> option (list string) ->
  string + mapping.
Variable item_sparse_col_values : mapping -> string + list Z.
Variable construct_unique_item_feat :
  list (list Z) -> option (list (list Z)) -> list Z ->
  string + (list (list Z) * option (list (list Z))).

Lemma select_columns_lookup (data inter : DataFrame) (names : list string) (k : string) :
  select_columns data names = Ok inter ->
  n_rows inter = n_rows data /\
  columns inter !! k = if decide (k ∈ names) then columns data !! k else None.
Proof.
  unfold select_columns. destruct (filter _ names); [|done].
  intros [= <-]. simpl. split; [done|].
  rewrite map_lookup_filter. destruct (columns data !! k) as [vals|]; simpl.
  - destruct (decide (k ∈ names)) as [Hin|Hnin].
    + by rewrite option_guard_True.
    + by rewrite option_guard_False.
  - by destruct (decide (k ∈ names)).
Qed.

(** X17.  [DatasetFeat.build_trainset] returns on every well-formed table
    that has the required columns and every listed sparse and dense column,
    as soon as the imported helpers return.  The [TransformedSet] then
    holds the label column, cast to [float32], and an index matrix with
    one row per row of the table and one column per sparse column; the
    [DataInfo] is given the
    mapping of [col_name2index] and the frame of exactly the columns
    [user], [item] and [label]; without negative sampling the two unique
    item feature arguments are [None]. *)
Theorem feat_build_trainset_returns (train_data : DataFrame) (sparse_col : list string)
    (dense_col user_col item_col : option (list string)) (neg : bool) (st : store)
    (cmap : mapping) :
  frame_wf train_data ->
  ~ missing_required train_data ->
  (forall col, col ∈ sparse_col -> is_Some (columns train_data !! col)) ->
  (forall names, dense_col = Some names ->
     forall col, col ∈ names -> is_Some (columns train_data !! col)) ->
  col_name2index sparse_col dense_col user_col item_col = inr cmap ->
  (neg = true ->
   exists ids, item_sparse_col_values cmap = inr ids /\
               forall mx d, exists r, construct_unique_item_feat mx d ids = inr r) ->
  exists st' mx dense labels inter isu idu,
    DatasetFeat_build_trainset mapping col_name2index item_sparse_col_values
      construct_unique_item_feat train_data sparse_col dense_col user_col item_col neg st
    = (st', Ok (TransformedSet5 (get_user_indices DatasetFeat st')
                  (get_item_indices DatasetFeat st') (map float32_of_int labels) mx dense,
                DataInfo4 cmap inter isu idu)) /\
    columns train_data !! label = Some labels /\
    has_shape (n_rows train_data) (length sparse_col) mx /\
    (forall k, columns inter !! k =
               if decide (k ∈ [user; item; label]) then columns train_data !! k else None) /\
    (dense_col = None -> dense = None) /\
    (neg = false -> isu = None /\ idu = None).
Proof.
  intros Hwf Hreq Hcols Hdense Hcmap Hneg.
  pose proof (required_columns_present train_data Hreq) as Hthree.
  destruct (set_sparse_unique_vals_runs DatasetFeat train_data sparse_col Hcols st)
    as [s1 Hset].
  destruct (train_encoding_runs DatasetFeat train_data sparse_col sparse_col st s1
              Hwf ltac:(done) Hset ltac:(done)) as (s2 & mx & Hmx).
  pose proof (get_sparse_indices_matrix_ok _ _ _ _ _ _ _ Hmx) as (_ & _ & Hshape & _).
  destruct (Hthree label ltac:(by right; right; left)) as [labels Hl].
  destruct (select_columns train_data [user; item; label]) as [inter|e] eqn:Hinter.
  2:{ unfold select_columns in Hinter. by rewrite (no_missing_column _ _ Hthree) in Hinter. }
  assert (exists dense,
            (dense_col = None -> dense = None) /\
            forall B (k : option (list (list Z)) -> M B) s,
              bind (match dense_col with
                    | Some names =>
                        bind (lift (get_columns train_data names)) (fun d => ret (Some d))
                    | None => ret None
                    end) k s = k dense s) as (dense & Hnone & Hd).
  { destruct dense_col as [names|].
    - exists (Some (map (row_of (omap (fun c => columns train_data !! c) names))
                      (seq 0 (n_rows train_data)))).
      split; [done|]. intros B k s. unfold get_columns.
      rewrite (no_missing_column _ _ (Hdense names eq_refl)). reflexivity.
    - exists None. split; [done|]. reflexivity. }
  assert (exists isu idu,
            (neg = false -> isu = None /\ idu = None) /\
            forall B (k : option (list (list Z)) * option (list (list Z)) -> M B) s,
              bind (if neg
                    then bind (lift (from_helper "col_name_mapping"
                                       (item_sparse_col_values cmap)))
                           (fun ids =>
                              bind (lift (from_helper "construct_unique_item_feat"
                                            (construct_unique_item_feat mx dense ids)))
                                (fun r => ret (Some r.1, r.2)))
                    else ret (None, None)) k s = k (isu, idu) s) as (isu & idu & Hoff & Hn).
  { destruct neg.
    - destruct (Hneg eq_refl) as (ids & Hids & Hcons).
      destruct (Hcons mx dense) as [r Hr].
      exists (Some r.1), r.2. split; [done|]. intros B k s.
      unfold bind at 1. rewrite bind_lift, Hids. cbn [from_helper].
      rewrite bind_lift, Hr. reflexivity.
    - exists None, None. split; [done|]. reflexivity. }
  exists s2, mx, dense, labels, inter, isu, idu.
  split; [|split; [done|split; [done|split; [|done]]]].
  - rewrite feat_build_trainset_unfold.
    destruct (check_col_names_spec train_data) as [[Hmiss _]|[_ ->]]; [done|].
    unfold feat_after_checks, feat_after_matrix.
    unfold bind at 1. rewrite Hset. unfold bind at 1. rewrite Hmx.
    rewrite Hd. unfold labels_of, get_column. rewrite Hl. cbn [result_bind].
    rewrite bind_lift, Hcmap, bind_lift. cbn [from_helper].
    rewrite Hn. unfold_M. by rewrite Hinter.
  - intros k. by destruct (select_columns_lookup _ _ _ k Hinter).
Qed.

End feat_build_trainset_returns.

Lemma feat_build_trainset_returns_witness :
  exists st' mx dense labels inter isu idu,
    DatasetFeat_build_trainset unit (fun _ _ _ _ => inr tt) (fun _ => inr [])
      (fun m d _ => inr (m, d)) table1 [user; item] (Some ["age"]) None None true
      fresh_store
    = (st', Ok (TransformedSet5 (get_user_indices DatasetFeat st')
                  (get_item_indices DatasetFeat st') (map float32_of_int labels) mx dense,
                DataInfo4 tt inter isu idu)) /\
    columns table1 !! label = Some labels /\
    has_shape (n_rows table1) (length [user; item]) mx /\
    (forall k, columns inter !! k =
               if decide (k ∈ [user; item; label]) then columns table1 !! k else None) /\
    (Some ["age"] = None -> dense = None) /\
    (true = false -> isu = None /\ idu = None).
Proof.
  apply (feat_build_trainset_returns unit (fun _ _ _ _ => inr tt) (fun _ => inr [])
           (fun m d _ => inr (m, d)) table1 [user; item] (Some ["age"]) None None true
           fresh_store tt).
  - unfold frame_wf. compute_done.
  - unfold missing_required. intros [H|[H|H]]; vm_compute in H; discriminate H.
  - intros col Hcol. apply elem_of_cons in Hcol as [->|Hcol]; [by eexists|].
    apply elem_of_cons in Hcol as [->|Hcol]; [by eexists|].
    by apply elem_of_nil in Hcol.
  - intros names [= <-] col Hcol. apply elem_of_cons in Hcol as [->|Hcol]; [by eexists|].
    by apply elem_of_nil in Hcol.
  - reflexivity.
  - intros _. exists []. split; [reflexivity|]. intros mx d. by eexists.
Defined.

(** ** [DatasetFeat]: where an unknown value lands *)

(** X18.  In a test-mode encoding by [DatasetFeat] of a well-formed table,
    a value that the vocabulary of its column does not hold is written
    into the matrix as [OffsetTable[j+1] - 1], the last index of the range
    of its column: the slot the plus one reserves. *)
Theorem feat_unknown_value_reserved_slot (data : DataFrame) (sparse_col : list string)
    (st st' : store) (mx : list (list Z)) (j : nat) (col : string)
    (vals u : list Z) (r : nat) (v : Z) :
  frame_wf data ->
  _get_sparse_indices_matrix DatasetFeat data sparse_col "test" st = (st', Ok mx) ->
  sparse_col !! j = Some col ->
  columns data !! col = Some vals ->
  sparse_unique_vals st !! col = Some u ->
  vals !! r = Some v ->
  v ∉ u ->
  exists (offsets row : list Z) (a b : Z),
    _get_feature_offset DatasetFeat sparse_col st = Ok offsets /\
    offsets !! j = Some a /\ offsets !! S j = Some b /\
    mx !! r = Some row /\ row !! j = Some (b - 1) /\ a <= b - 1.
Proof.
  intros Hwf Hrun Hcol Hvals Hu Hv Hnin.
  pose proof Hrun as Hrun'.
  apply get_sparse_indices_matrix_ok in Hrun'
    as (offsets & Hoff & [Hrows _] & _ & _ & _).
  destruct (get_feature_offset_inv _ _ _ _ Hoff) as [Hc Hall].
  destruct (get_feature_offset_table DatasetFeat sparse_col st Hc Hall)
    as (offsets' & Hoff' & _ & _ & Hsteps).
  rewrite Hoff in Hoff'. injection Hoff' as <-.
  destruct (Hsteps j col Hcol) as (a & b & Ha & Hb & Hab).
  unfold vocabulary_size in Hab. rewrite Hu in Hab. simpl in Hab.
  destruct (lookup_lt_is_Some_2 mx r) as [row Hrow].
  { rewrite Hrows, <- (frame_wf_column data col vals Hwf Hvals).
    by eapply lookup_lt_Some. }
  exists offsets, row, a, b. repeat split; try done; [|lia].
  rewrite (matrix_column_of DatasetFeat data sparse_col "test" st st' mx offsets col
             vals u _ Hwf Hrun Hoff Hvals Hu (sparse_indices_test vals u)
             j a r row Hcol Ha Hrow).
  rewrite (lookup_test_indices _ _ _ _ Hv), bool_decide_eq_false_2 by done.
  simpl. f_equal. lia.
Qed.

Lemma feat_unknown_value_reserved_slot_witness :
  exists (offsets row : list Z) (a b : Z),
    _get_feature_offset DatasetFeat [user; item]
      (set_unique_vals item [10] (set_unique_vals user [1; 2; 3] fresh_store))
    = Ok offsets /\
    offsets !! 1%nat = Some a /\ offsets !! 2%nat = Some b /\
    [[0; 4]; [1; 5]; [2; 4]; [1; 4]] !! 1%nat = Some row /\
    row !! 1%nat = Some (b - 1) /\ a <= b - 1.
Proof.
  apply (feat_unknown_value_reserved_slot table1 [user; item]
           (set_unique_vals item [10] (set_unique_vals user [1; 2; 3] fresh_store))
           (set_item_indices DatasetFeat (Some [0; 1; 0; 0])
              (set_user_indices DatasetFeat (Some [0; 1; 2; 1])
                 (set_unique_vals item [10] (set_unique_vals user [1; 2; 3] fresh_store))))
           [[0; 4]; [1; 5]; [2; 4]; [1; 4]] 1 item [10; 20; 10; 10] [10] 1 20).
  - unfold frame_wf. compute_done.
  - vm_compute. reflexivity.
  - reflexivity.
  - reflexivity.
  - reflexivity.
  - reflexivity.
  - compute_done.
Defined.

(** ** A vocabulary left in the registry by an earlier call *)

(** X19.  The registry is shared and never cleared, and
    [DatasetPure.build_trainset] encodes [user] whether or not [sparse_col]
    lists it.  When [sparse_col] lists [item] but not [user] and the
    registry holds a [user] vocabulary from an earlier call, the call
    returns, and its user vector is the encoding of this table's [user]
    column against that earlier vocabulary, not against the users of this
    table; the labels are the label column cast to [float32]. *)
Theorem pure_build_trainset_earlier_vocabulary (mapping : Type)
    (train_data : DataFrame) (sparse_col : list string) (st : store) (earlier : list Z) :
  frame_wf train_data ->
  ~ missing_required train_data ->
  (forall col, col ∈ sparse_col -> is_Some (columns train_data !! col)) ->
  user ∉ sparse_col ->
  item ∈ sparse_col ->
  sparse_unique_vals st !! user = Some earlier ->
  exists st' user_vals item_vals labels,
    columns train_data !! user = Some user_vals /\
    columns train_data !! item = Some item_vals /\
    columns train_data !! label = Some labels /\
    @DatasetPure_build_trainset mapping train_data sparse_col st
    = (st', Ok (TransformedSet3
                  (Some (Np.searchsorted earlier user_vals))
                  (Some (Np.searchsorted (Np.unique item_vals) item_vals))
                  (map float32_of_int labels),
                DataInfo_ellipsis)).
Proof.
  intros Hwf Hreq Hcols Huser Hitem Hearlier.
  pose proof (required_columns_present train_data Hreq) as Hthree.
  rewrite pure_build_trainset_unfold.
  destruct (check_col_names_spec train_data) as [[Hmiss _]|[_ ->]]; [done|].
  destruct (set_sparse_unique_vals_runs DatasetPure train_data sparse_col Hcols st)
    as [s1 Hset].
  pose proof (set_sparse_unique_vals_ok _ _ _ _ _ Hset) as (_ & Hreg & _).
  destruct (get_sparse_indices_matrix_runs DatasetPure train_data [user; item] "train" s1
              Hwf ltac:(done) ltac:(by left)) as (s2 & mx & Hmx).
  { intros k Hk. apply elem_of_cons in Hk as [->|Hk].
    - split; [apply Hthree; by left|].
      rewrite Hreg, decide_False by done. by rewrite Hearlier.
    - apply elem_of_cons in Hk as [->|Hk]; [|by apply elem_of_nil in Hk].
      split; [apply Hthree; by right; left|].
      rewrite Hreg, decide_True by done.
      destruct (Hcols item Hitem) as [vals ->]. by eexists. }
  pose proof (get_sparse_indices_matrix_ok _ _ _ _ _ _ _ Hmx) as (_ & _ & _ & _ & _ & Hattr).
  destruct (Hattr user ltac:(by left)) as [Hu _].
  destruct (Hu ltac:(by left)) as (uvals & uvoc & uidx & Huv & Huu & Hui & Hug).
  destruct (Hattr item ltac:(by right)) as [Hi _].
  destruct (Hi ltac:(by right; left)) as (ivals & ivoc & iidx & Hiv & Hiu & Hii & Hig).
  rewrite decide_True in Hug by done. rewrite decide_False in Hig by done.
  rewrite Hreg, decide_False, Hearlier in Huu by done. injection Huu as <-.
  rewrite Hreg, decide_True, Hiv in Hiu by done. injection Hiu as <-.
  rewrite sparse_indices_train in Hui, Hii. injection Hui as <-. injection Hii as <-.
  destruct (Hthree label ltac:(by right; right; left)) as [labels Hl].
  exists s2, uvals, ivals, labels. repeat split; try done.
  unfold pure_after_checks, labels_of, get_column. unfold_M.
  rewrite Hset, Hmx, Hl. cbn [result_bind]. by rewrite Hug, Hig.
Qed.

Lemma pure_build_trainset_earlier_vocabulary_witness :
  exists st' user_vals item_vals labels,
    columns table1 !! user = Some user_vals /\
    columns table1 !! item = Some item_vals /\
    columns table1 !! label = Some labels /\
    @DatasetPure_build_trainset unit table1 [item] (set_unique_vals user [2; 7] fresh_store)
    = (st', Ok (TransformedSet3
                  (Some (Np.searchsorted [2; 7] user_vals))
                  (Some (Np.searchsorted (Np.unique item_vals) item_vals))
                  (map float32_of_int labels),
                DataInfo_ellipsis)).
Proof.
  apply (pure_build_trainset_earlier_vocabulary unit table1 [item]
           (set_unique_vals user [2; 7] fresh_store) [2; 7]).
  - unfold frame_wf. compute_done.
  - unfold missing_required. intros [H|[H|H]]; vm_compute in H; discriminate H.
  - intros col Hcol. apply elem_of_cons in Hcol as [->|Hcol]; [by eexists|].
    by apply elem_of_nil in Hcol.
  - compute_done.
  - compute_done.
  - reflexivity.
Defined.

(** ** The attention configuration of [AutoInt] *)

(** X20.  [AutoInt._att_config] returns a list or tuple of sizes together
    with its length, which is at least 1, so that every layer index below
    the layer count has a size: an empty value ([None], [0], [False], an
    empty string, list or tuple) gives the default of three layers of size
    8, an integer gives one layer, a non-empty list or tuple is kept as it
    is.  A value that is true and neither an integer nor a list or tuple
    makes the call raise, [att_layer_num] being unassigned; nothing else
    does. *)
Theorem att_config_layers (v : pyval) :
  (forall sizes n, _att_config v = Ok (sizes, n) ->
     is_list_or_tuple sizes = true /\ py_len sizes = n /\ 1 <= n /\
     forall i : nat, Z.of_nat i < n -> is_Some (py_item sizes i)) /\
  (truthy v = false ->
   _att_config v = Ok (PyTuple [PyInt 8; PyInt 8; PyInt 8], 3)) /\
  (truthy v = true -> is_int v = true -> _att_config v = Ok (PyList [v], 1)) /\
  (truthy v = true -> is_list_or_tuple v = true -> _att_config v = Ok (v, py_len v)) /\
  ((exists e, _att_config v = Raise e) <->
   truthy v = true /\ is_int v = false /\ is_list_or_tuple v = false).
Proof.
  assert (forall items : list pyval, forall i : nat,
            Z.of_nat i < Z.of_nat (length items) -> is_Some (items !! i)) as Hitem.
  { intros items i Hi. apply lookup_lt_is_Some_2. lia. }
  unfold _att_config. split; [|split; [|split; [|split]]].
  - intros sizes n.
    destruct (truthy v) eqn:Ht; simpl.
    + destruct (is_int v) eqn:Hint.
      * intros [= <- <-]. repeat split; [lia|]. intros i Hi. apply (Hitem [v]). exact Hi.
      * destruct (is_list_or_tuple v) eqn:Hlist; [|done].
        intros [= <- <-]. repeat split; [done|..].
        -- destruct v as [| | | |items|items|]; try done;
             destruct items; try done; simpl; lia.
        -- intros i Hi. destruct v as [| | | |items|items|]; try done; by apply Hitem.
    + intros [= <- <-]. repeat split; [lia|]. intros i Hi.
      apply (Hitem [PyInt 8; PyInt 8; PyInt 8]). exact Hi.
  - by intros ->.
  - by intros -> ->.
  - intros -> Hl. simpl. rewrite Hl. by destruct (is_int v) eqn:Hint; [destruct v|].
  - destruct (truthy v); simpl.
    + destruct (is_int v); [|destruct (is_list_or_tuple v)].
      * split; [by intros [e He]|by intros (_ & He & _)].
      * split; [by intros [e He]|by intros (_ & _ & He)].
      * split; [done|]. intros _. by eexists.
    + split; [by intros [e He]|by intros (He & _)].
Qed.

(** ** The cast of the labels *)

(** A label of at most 24 bits is unchanged by the cast to [float32]. *)
Lemma float32_of_int_small (n : Z) : Z.abs n < 2 ^ 24 -> float32_of_int n = n.
Proof.
  intros Hn. unfold float32_of_int.
  destruct (Z.leb_spec (Z.log2 (Z.abs n) + 1) 24) as [_|Hbits]; [done|].
  exfalso. destruct (Z.eq_dec (Z.abs n) 0) as [H0|H0].
  - rewrite H0 in Hbits. simpl in Hbits. lia.
  - assert (Z.log2 (Z.abs n) < 24); [|lia].
    apply Z.log2_lt_pow2; lia.
Qed.
